(** * Validation-guided repair engine: a shallow embedding in Rocq

    The development embeds the parts of the repository that the
    specification calls the core:
    - [surgicalRepair.js]: [determineRepairScope] and [replaceField];
    - [validator.js]: the email validator [validateEmail] with
      [parseEmailOutput], [extract3Grams] and the per-text checks;
    - [validatorMultiformat.js]: [validateMultiformat] and its checks;
    - [generateMultiformat.js] and [generateEmail.js]: the two
      orchestrators of the generate / validate / repair loop.

    JavaScript strings are sequences of UTF-16 code units; they are
    modelled as [list Z].  Regular expressions are transcribed into a
    small abstract syntax and run by a backtracking matcher that follows
    the priority order of ECMAScript's pattern semantics. *)

From Stdlib Require Import ZArith List String Ascii Bool Lia Sorting.Sorted Permutation.
Import ListNotations.
Open Scope Z_scope.

(** ** JavaScript strings *)
Module Js.

(** A JS string: its UTF-16 code units. *)
Definition jstr := list Z.

(** Decoding the UTF-8 bytes of a Rocq string literal into code points;
    used only to write the program's string constants. *)
Fixpoint utf8_decode (bs : list Z) : list Z :=
  match bs with
  | [] => []
  | b0 :: rest =>
      if b0 <? 128 then b0 :: utf8_decode rest
      else if b0 <? 224 then
        match rest with
        | b1 :: rest' =>
            (Z.land b0 31 * 64 + Z.land b1 63) :: utf8_decode rest'
        | [] => []
        end
      else if b0 <? 240 then
        match rest with
        | b1 :: b2 :: rest' =>
            (Z.land b0 15 * 4096 + Z.land b1 63 * 64 + Z.land b2 63)
              :: utf8_decode rest'
        | _ => []
        end
      else
        match rest with
        | b1 :: b2 :: b3 :: rest' =>
            (Z.land b0 7 * 262144 + Z.land b1 63 * 4096
               + Z.land b2 63 * 64 + Z.land b3 63) :: utf8_decode rest'
        | _ => []
        end
  end.

(** Code points to UTF-16 code units (astral planes as surrogate pairs). *)
Fixpoint to_utf16 (cps : list Z) : jstr :=
  match cps with
  | [] => []
  | c :: rest =>
      if c <? 65536 then c :: to_utf16 rest
      else (55296 + Z.shiftr (c - 65536) 10)
             :: (56320 + Z.land (c - 65536) 1023) :: to_utf16 rest
  end.

Fixpoint bytes_of (s : string) : list Z :=
  match s with
  | EmptyString => []
  | String a s' => Z.of_nat (nat_of_ascii a) :: bytes_of s'
  end.

(** [js "..."] is the JS string constant written between the quotes. *)
Definition js (s : string) : jstr := to_utf16 (utf8_decode (bytes_of s)).

Definition is_high (u : Z) : bool := (55296 <=? u) && (u <=? 56319).
Definition is_low (u : Z) : bool := (56320 <=? u) && (u <=? 57343).

(** The code points of a JS string, as the string iterator yields them
    ([Array.from], [for..of], regular expressions with the [u] flag): a
    surrogate pair gives one code point, a lone surrogate itself. *)
Fixpoint code_points (s : jstr) : list Z :=
  match s with
  | [] => []
  | u :: rest =>
      if is_high u then
        match rest with
        | v :: rest' =>
            if is_low v
            then (65536 + (u - 55296) * 1024 + (v - 56320)) :: code_points rest'
            else u :: code_points rest
        | [] => [u]
        end
      else u :: code_points rest
  end.

(** [Array.from(text).length]. *)
Definition array_from_length (s : jstr) : nat := List.length (code_points s).

(** Simple case mapping of one code point, over the blocks the program's
    texts use: Basic Latin, Latin-1 letters and Cyrillic (U+0400..U+045F).
    Other code points map to themselves. *)
Definition lower1 (c : Z) : Z :=
  if (65 <=? c) && (c <=? 90) then c + 32
  else if (192 <=? c) && (c <=? 222) && negb (c =? 215) then c + 32
  else if (1040 <=? c) && (c <=? 1071) then c + 32
  else if (1024 <=? c) && (c <=? 1039) then c + 80
  else c.

Definition upper1 (c : Z) : Z :=
  if (97 <=? c) && (c <=? 122) then c - 32
  else if (224 <=? c) && (c <=? 254) && negb (c =? 247) then c - 32
  else if (1072 <=? c) && (c <=? 1103) then c - 32
  else if (1104 <=? c) && (c <=? 1119) then c - 80
  else c.

(** [String.prototype.toLowerCase]: U+0130 (capital I with dot above)
    lowers to the two units "i" U+0307, the one unconditional mapping of
    Unicode that changes the length; other units map by [lower1]. *)
Fixpoint toLowerCase (s : jstr) : jstr :=
  match s with
  | [] => []
  | u :: rest =>
      if u =? 304 then 105 :: 775 :: toLowerCase rest
      else lower1 u :: toLowerCase rest
  end.

(** WhiteSpace and LineTerminator code units (for [trim] and [\s]). *)
Definition is_space (u : Z) : bool :=
  (9 <=? u) && (u <=? 13) || (u =? 32) || (u =? 160) || (u =? 5760)
  || (8192 <=? u) && (u <=? 8202) || (u =? 8232) || (u =? 8233)
  || (u =? 8239) || (u =? 8287) || (u =? 12288) || (u =? 65279).

(** Line terminators, which [.] does not match. *)
Definition is_line_term (u : Z) : bool :=
  (u =? 10) || (u =? 13) || (u =? 8232) || (u =? 8233).

Fixpoint drop_spaces (s : jstr) : jstr :=
  match s with
  | u :: rest => if is_space u then drop_spaces rest else s
  | [] => []
  end.

(** [String.prototype.trim]. *)
Definition trim (s : jstr) : jstr := rev (drop_spaces (rev (drop_spaces s))).

(** [s.split(c)] for a one-unit separator. *)
Fixpoint split_on (c : Z) (s : jstr) : list jstr :=
  match s with
  | [] => [[]]
  | u :: rest =>
      if u =? c then [] :: split_on c rest
      else match split_on c rest with
           | w :: ws => (u :: w) :: ws
           | [] => [[u]]
           end
  end.

(** [arr.join(sep)]. *)
Fixpoint join (sep : jstr) (ws : list jstr) : jstr :=
  match ws with
  | [] => []
  | [w] => w
  | w :: ws' => w ++ sep ++ join sep ws'
  end.

Definition newline : jstr := [10].
Definition split_lines (s : jstr) : list jstr := split_on 10 s.
Definition join_lines (ws : list jstr) : jstr := join newline ws.

(** [s.substring(a, b)]: both arguments clamped to [0, length], then
    swapped when [a > b]. *)
Definition clamp (len : nat) (a : Z) : nat := Z.to_nat (Z.max 0 (Z.min a (Z.of_nat len))).

Definition substring (s : jstr) (a b : Z) : jstr :=
  let len := List.length s in
  let a' := clamp len a in
  let b' := clamp len b in
  let lo := Nat.min a' b' in
  let hi := Nat.max a' b' in
  firstn (hi - lo) (skipn lo s).

Fixpoint prefixb (p s : jstr) : bool :=
  match p, s with
  | [], _ => true
  | x :: p', y :: s' => (x =? y) && prefixb p' s'
  | _ :: _, [] => false
  end.

Fixpoint index_from (needle hay : jstr) (i : nat) : option nat :=
  if prefixb needle hay then Some i
  else match hay with
       | [] => None
       | _ :: hay' => index_from needle hay' (S i)
       end.

(** [hay.indexOf(needle)]. *)
Definition indexOf (hay needle : jstr) : Z :=
  match index_from needle hay 0 with
  | Some i => Z.of_nat i
  | None => -1
  end.

(** [hay.includes(needle)]. *)
Definition includes (hay needle : jstr) : bool :=
  match index_from needle hay 0 with Some _ => true | None => false end.

Fixpoint jstr_eqb (a b : jstr) : bool :=
  match a, b with
  | [], [] => true
  | x :: a', y :: b' => (x =? y) && jstr_eqb a' b'
  | _, _ => false
  end.

(** Decimal rendering of a non-negative number, as in a template literal. *)
Fixpoint digits_rev (fuel : nat) (n : Z) : jstr :=
  match fuel with
  | O => []
  | S f => if n <? 10 then [48 + n] else (48 + n mod 10) :: digits_rev f (n / 10)
  end.

Definition of_nat (n : nat) : jstr := rev (digits_rev 20 (Z.of_nat n)).

(** The double-quote character, used to assemble messages. *)
Definition dq : jstr := [34].
Definition quoted (s : jstr) : jstr := dq ++ s ++ dq.

End Js.

Import Js.

(** ** Regular expressions

    A pattern is run over a list of characters: the code units of the
    string, or its code points for a pattern with the [u] flag.  [m] is the
    backtracking matcher in continuation-passing style; the first success
    found is the one ECMAScript's priority order selects (left alternative
    first, greedy quantifiers longest first).  An iteration of [*] that
    consumes nothing fails, as in the standard's RepeatMatcher.  Matching
    under the [i] flag compares characters up to [lower1] / [upper1]. *)
Module Regex.

Inductive re : Type :=
| Chr (p : Z -> bool)
| Seq (r1 r2 : re)
| Alt (r1 r2 : re)
| Star (r : re)
| Bol
| Eol
| WordB
| NotAhead (r : re)
| Group (g : nat) (r : re)
| Eps.

Fixpoint size (r : re) : nat :=
  match r with
  | Seq a b | Alt a b => S (size a + size b)
  | Star a | NotAhead a | Group _ a => S (size a)
  | _ => 1
  end.

(** Captured spans: group number, start, end. *)
Definition caps := list (nat * (nat * nat)).
Definition cont := nat -> caps -> option (nat * caps).

Definition char_ok (ci : bool) (p : Z -> bool) (u : Z) : bool :=
  p u || ci && (p (lower1 u) || p (upper1 u)).

(** ASCII word characters, for [\b]. *)
Definition is_word (u : Z) : bool :=
  (48 <=? u) && (u <=? 57) || (65 <=? u) && (u <=? 90)
  || (97 <=? u) && (u <=? 122) || (u =? 95).

Definition word_at (s : list Z) (i : nat) : bool :=
  match nth_error s i with Some u => is_word u | None => false end.

Fixpoint m (fuel : nat) (ci : bool) (s : list Z) (r : re) (i : nat) (c : caps)
         (k : cont) : option (nat * caps) :=
  match fuel with
  | O => None
  | S n =>
      match r with
      | Chr p =>
          match nth_error s i with
          | Some u => if char_ok ci p u then k (S i) c else None
          | None => None
          end
      | Seq r1 r2 => m n ci s r1 i c (fun j c' => m n ci s r2 j c' k)
      | Alt r1 r2 =>
          match m n ci s r1 i c k with
          | Some x => Some x
          | None => m n ci s r2 i c k
          end
      | Star r1 =>
          match m n ci s r1 i c
                  (fun j c' => if Nat.eqb j i then None else m n ci s (Star r1) j c' k) with
          | Some x => Some x
          | None => k i c
          end
      | Bol => if Nat.eqb i 0 then k i c else None
      | Eol => if Nat.eqb i (List.length s) then k i c else None
      | WordB =>
          let a := match i with O => false | S i' => word_at s i' end in
          if xorb a (word_at s i) then k i c else None
      | NotAhead r1 =>
          match m n ci s r1 i c (fun j c' => Some (j, c')) with
          | Some _ => None
          | None => k i c
          end
      | Group g r1 => m n ci s r1 i c (fun j c' => k j ((g, (i, j)) :: c'))
      | Eps => k i c
      end
  end.

Definition fuel_for (r : re) (s : list Z) : nat := 2 * (List.length s + size r) + 2.

(** A match attempted at position [i] exactly. *)
Definition match_at (ci : bool) (r : re) (s : list Z) (i : nat) : option (nat * caps) :=
  m (fuel_for r s) ci s r i [] (fun j c => Some (j, c)).

Fixpoint search_from (ci : bool) (r : re) (s : list Z) (n i : nat)
  : option (nat * nat * caps) :=
  match match_at ci r s i with
  | Some (j, c) => Some (i, j, c)
  | None =>
      match n with
      | O => None
      | S n' => search_from ci r s n' (S i)
      end
  end.

(** The leftmost match starting at or after [i]: start, end, captures. *)
Definition search (ci : bool) (r : re) (s : list Z) (i : nat) : option (nat * nat * caps) :=
  search_from ci r s (List.length s - i) i.

(** [re.test(s)] (a pattern without the [g] flag). *)
Definition test (ci : bool) (r : re) (s : list Z) : bool :=
  match search ci r s 0 with Some _ => true | None => false end.

Definition slice (s : list Z) (a b : nat) : list Z := firstn (b - a) (skipn a s).

(** [s.match(re)] without [g]: index and text of the first match. *)
Definition exec (ci : bool) (r : re) (s : list Z) : option (nat * list Z) :=
  match search ci r s 0 with
  | Some (a, b, _) => Some (a, slice s a b)
  | None => None
  end.

(** Text of capture group [g] of the first match, when it took part. *)
Definition exec_group (ci : bool) (r : re) (g : nat) (s : list Z) : option (list Z) :=
  match search ci r s 0 with
  | Some (_, _, c) =>
      match find (fun x => Nat.eqb (fst x) g) c with
      | Some (_, (a, b)) => Some (slice s a b)
      | None => None
      end
  | None => None
  end.

(** All matches of a [g] pattern, left to right ([s.match(re)] with
    [g]); after an empty match the search resumes one position later. *)
Fixpoint all_from (ci : bool) (r : re) (s : list Z) (n i : nat) : list (nat * nat) :=
  match n with
  | O => []
  | S n' =>
      match search ci r s i with
      | Some (a, b, _) =>
          (a, b) :: all_from ci r s n' (if Nat.eqb a b then S b else b)
      | None => []
      end
  end.

Definition match_all (ci : bool) (r : re) (s : list Z) : list (list Z) :=
  map (fun ab => slice s (fst ab) (snd ab)) (all_from ci r s (S (List.length s)) 0).

(** [s.replace(re, rep)] with the [g] flag ([rep] has no [$] patterns). *)
Fixpoint replace_from (ci : bool) (r : re) (rep s : list Z) (n i : nat) : list Z :=
  match n with
  | O => skipn i s
  | S n' =>
      match search ci r s i with
      | Some (a, b, _) =>
          if Nat.eqb a b
          then slice s i a ++ rep ++ slice s a (S a) ++ replace_from ci r rep s n' (S a)
          else slice s i a ++ rep ++ replace_from ci r rep s n' b
      | None => skipn i s
      end
  end.

Definition replace_all (ci : bool) (r : re) (rep s : list Z) : list Z :=
  replace_from ci r rep s (S (List.length s)) 0.

(** [s.replace(re, rep)] without [g]: the first match only. *)
Definition replace_first (ci : bool) (r : re) (rep s : list Z) : list Z :=
  match search ci r s 0 with
  | Some (a, b, _) => slice s 0 a ++ rep ++ skipn b s
  | None => s
  end.

(** Building blocks. *)
Definition ch (c : Z) : re := Chr (fun u => u =? c).
Definition cls (l : list Z) : re := Chr (fun u => existsb (Z.eqb u) l).
Definition lit (w : list Z) : re := fold_right (fun c r => Seq (ch c) r) Eps w.
Definition word (w : string) : re := lit (js w).
Definition any : re := Chr (fun u => negb (is_line_term u)).
Definition sp : re := Chr is_space.
Definition digit : re := Chr (fun u => (48 <=? u) && (u <=? 57)).
Definition plus (r : re) : re := Seq r (Star r).
Definition opt (r : re) : re := Alt r Eps.
Definition seqs (l : list re) : re := fold_right Seq Eps l.
Fixpoint alts (l : list re) : re :=
  match l with
  | [] => Chr (fun _ => false)
  | [r] => r
  | r :: l' => Alt r (alts l')
  end.
(** [r{0,n}], greedy. *)
Fixpoint upto (n : nat) (r : re) : re :=
  match n with O => Eps | S n' => opt (Seq r (upto n' r)) end.
(** [r{n}]. *)
Fixpoint times (n : nat) (r : re) : re :=
  match n with O => Eps | S n' => Seq r (times n' r) end.
(** Words separated by [\s+]: [w1\s+w2\s+...]. *)
Fixpoint words_sp (l : list re) : re :=
  match l with
  | [] => Eps
  | [r] => r
  | r :: l' => seqs [r; plus sp; words_sp l']
  end.

End Regex.

Import Regex.

(** ** The violation model (validator.js, validatorMultiformat.js) *)

Inductive severity : Type := ERROR | WARNING | INFO.

Definition severity_eqb (a b : severity) : bool :=
  match a, b with
  | ERROR, ERROR | WARNING, WARNING | INFO, INFO => true
  | _, _ => false
  end.

Record violation : Type := mkViolation {
  code : jstr;
  severity_of : severity;
  message : jstr;
  location : jstr;
  evidence : jstr;
  suggestedFix : option jstr
}.

Definition is_error (v : violation) : bool := severity_eqb (severity_of v) ERROR.

(** [violations.filter(v => v.severity === ERROR).length]. *)
Definition error_count (vs : list violation) : nat := List.length (filter is_error vs).

(** Number of violations carrying a given code. *)
Definition count_code (c : jstr) (vs : list violation) : nat :=
  List.length (filter (fun v => jstr_eqb (code v) c) vs).

(** ** The email validator (validator.js) *)
Module Email.

(** [s || t] on strings: [s] unless it is empty. *)
Definition or_else (s t : jstr) : jstr := match s with [] => t | _ => s end.

Definition match_text (ci : bool) (r : re) (s : jstr) : option jstr :=
  option_map snd (exec ci r s).

(** /мероприятие\s+с\s+дегустацией\s+вин/i *)
Definition degust_allowed : re :=
  words_sp [word "мероприятие"; word "с"; word "дегустацией"; word "вин"].
(** /в\s+винотек/i *)
Definition vinotek : re := words_sp [word "в"; word "винотек"].
(** /покупк|покупа[тюе]/i *)
Definition pokupka : re := Alt (word "покупк") (Seq (word "покупа") (cls (js "тюе"))).
(** /[^.]*w[^.]*/i *)
Definition not_dot : re := Chr (fun u => negb (u =? 46)).
Definition around_dotfree (w : string) : re := seqs [Star not_dot; word w; Star not_dot].

(** [checkForbiddenWords(text, location)]. *)
Definition checkForbiddenWords (text location : jstr) : list violation :=
  match text with
  | [] => []
  | _ =>
  let lowerText := toLowerCase text in
  let len := Z.of_nat (List.length text) in
  let degust :=
    if includes lowerText (js "дегустац") then
      if test true degust_allowed text then []
      else
        let i := indexOf (toLowerCase text) (js "дегустац") in
        [mkViolation (js "FORBIDDEN_DEGUSTATSIYA") ERROR
           (js "Слово " ++ quoted (js "дегустация") ++ js " запрещено, кроме фразы "
              ++ quoted (js "мероприятие с дегустацией вин"))
           location (substring text i (Z.min len (i + 50)))
           (Some (js "Используйте: " ++ quoted (js "винный вечер") ++ js ", "
                    ++ quoted (js "вечер с винами") ++ js ", "
                    ++ quoted (js "винное мероприятие")))]
    else [] in
  let kupit :=
    if includes lowerText (js "купи") then
      let i := indexOf lowerText (js "купи") in
      let context := substring text (Z.max 0 (i - 20)) (Z.min len (i + 30)) in
      if test true vinotek context then []
      else
        [mkViolation (js "FORBIDDEN_KUPIT") ERROR
           (js "Слово " ++ quoted (js "купить") ++ js " запрещено, кроме "
              ++ quoted (js "купить в винотеке"))
           location context
           (Some (js "Используйте: " ++ quoted (js "заказать") ++ js ", "
                    ++ quoted (js "выбрать") ++ js ", " ++ quoted (js "собрать корзину")))]
    else [] in
  let pokup :=
    if test true pokupka text then
      match exec true pokupka text with
      | Some (startIdx, _) =>
          let s := Z.of_nat startIdx in
          let context := substring text (Z.max 0 (s - 20)) (Z.min len (s + 40)) in
          if test true vinotek context then []
          else
            [mkViolation (js "FORBIDDEN_POKUPKA") ERROR
               (js "Слова " ++ quoted (js "покупка/покупать")
                  ++ js " запрещены, кроме случаев с " ++ quoted (js "в винотеке"))
               location context
               (Some (js "Переформулируйте без использования слова " ++ quoted (js "покупка")))]
      | None => []
      end
    else [] in
  let buket :=
    if test true (Seq WordB (word "букет")) text then
      [mkViolation (js "FORBIDDEN_BUKET") ERROR
         (js "Слово " ++ quoted (js "букет") ++ js " запрещено") location
         (or_else (match match_text true (around_dotfree "букет") text with
                   | Some t => t | None => [] end) (substring text 0 50))
         (Some (js "Замените на " ++ quoted (js "профиль") ++ js " или конкретные ароматы/вкусы"))]
    else [] in
  let poslevkus :=
    if test true (word "послевкус") text then
      [mkViolation (js "FORBIDDEN_POSLEVKUSIE") ERROR
         (js "Слово " ++ quoted (js "послевкусие") ++ js " запрещено") location
         (or_else (match match_text true (around_dotfree "послевкус") text with
                   | Some t => t | None => [] end) (substring text 0 50))
         (Some (js "Замените на " ++ quoted (js "финиш")))]
    else [] in
  degust ++ kupit ++ pokup ++ buket ++ poslevkus
  end.

(** The table [bannedCliches]: pattern and message. *)
Definition comma_opt_sp (w : string) : re := seqs [word w; opt (ch 44)].
Definition bannedCliches : list (re * jstr) := [
  (seqs [word "с"; plus sp; word "характером";
         NotAhead (seqs [plus sp; cls (js "—:"); times 3 any; Star any])],
   quoted (js "с характером") ++ js " - запрещено без конкретного объяснения");
  (words_sp [word "для"; word "истинных"; word "ценителей"; word "и"; word "особых"; word "моментов"],
   js "Штамп: " ++ quoted (js "для истинных ценителей и особых моментов"));
  (words_sp [word "отличный"; word "повод"], js "Штамп: " ++ quoted (js "отличный повод"));
  (words_sp [word "никого"; word "не"; word "оставит"; word "равнодушным"],
   js "Штамп: " ++ quoted (js "Никого не оставит равнодушным"));
  (words_sp [word "икона"; word "стиля"], js "Штамп: " ++ quoted (js "Икона стиля"));
  (words_sp [comma_opt_sp "лето"; word "которое"; word "хочется"; word "пить"],
   js "Штамп: " ++ quoted (js "Лето, которое хочется пить"));
  (words_sp [word "уютный"; word "вечер"; word "под"; word "пледом"],
   js "Штамп: " ++ quoted (js "уютный вечер под пледом"));
  (words_sp [word "для"; word "душевных"; word "разговоров"],
   js "Штамп: " ++ quoted (js "Для душевных разговоров"));
  (words_sp [word "со"; word "смыслом"], js "Штамп: " ++ quoted (js "со смыслом"));
  (words_sp [comma_opt_sp "больше"; word "чем"; word "просто"; word "вино"],
   js "Штамп: " ++ quoted (js "Больше, чем просто вино"))
].

(** [checkBannedCliches(text, location)]. *)
Definition checkBannedCliches (text location : jstr) : list violation :=
  match text with
  | [] => []
  | _ =>
    flat_map (fun pm =>
      if test true (fst pm) text then
        [mkViolation (js "BANNED_CLICHE") ERROR (snd pm) location
           (match match_text true (fst pm) text with Some t => t | None => [] end)
           (Some (js "Переформулируйте оригинально"))]
      else []) bannedCliches
  end.

Definition regions : list string :=
  ["Пьемонт"; "Тоскан"; "Бордо"; "Бургунд"; "Испан"; "Италь"; "Франц";
   "Португал"; "Чили"; "Аргентин"; "Австрали"; "Новая Зеландия"]%string.

(** The five [forbiddenPatterns] built for one region (flags [iu]). *)
Definition geo_patterns (region : string) : list re :=
  let R := word region in [
  seqs [alts [Seq (word "пробу") (cls (js "ем")); Seq (word "попробу") (cls (js "ем"));
              Seq (word "дегуст") (cls (js "ие"))]; plus sp; R];
  seqs [word "вечер"; plus sp; R];
  seqs [R; plus sp; word "в"; plus sp; word "бокале"];
  seqs [alts [word "немного"; word "глоток"; word "вкус"; Seq (word "капл") (cls (js "яа"))];
        plus sp; R];
  seqs [R; NotAhead (Seq (upto 40 any) (word "вин"));
        NotAhead (seqs [upto 10 any; alts [word "ск"; word "н"]; cls (js "иоеа")]);
        plus sp;
        alts [words_sp [word "на"; word "столе"]; words_sp [word "для"; word "вас"];
              word "ждет"]]
  ].

(** [checkGeographyLabels(text, location)]; the patterns carry the [u]
    flag, so they run over the code points of [text]. *)
Definition checkGeographyLabels (text location : jstr) : list violation :=
  match text with
  | [] => []
  | _ =>
    let cps := code_points text in
    flat_map (fun region =>
      flat_map (fun pat =>
        if test true pat cps then
          [mkViolation (js "GEOGRAPHY_LABEL_MISUSE") ERROR
             (js "Регион " ++ quoted (js region) ++ js " используется как самостоятельный "
                 ++ quoted (js "ярлык") ++ js " без упоминания вина")
             location
             (match match_text true pat cps with Some t => to_utf16 t | None => [] end)
             (Some (js "Используйте: " ++ quoted (js "вина " ++ js region ++ js "а")
                      ++ js " или " ++ quoted (toLowerCase (js region) ++ js "ские вина")))]
        else []) (geo_patterns region)) regions
  end.

(** [checkCharLimit(text, limit, location)]: the length is
    [Array.from(text).length], the number of code points. *)
Definition checkCharLimit (text : jstr) (limit : nat) (location : jstr) : list violation :=
  match text with
  | [] => []
  | _ =>
    let length := array_from_length text in
    if Nat.ltb limit length then
      [mkViolation (js "CHAR_LIMIT_EXCEEDED") ERROR
         (js "Превышен лимит символов: " ++ of_nat length ++ js " > " ++ of_nat limit)
         location text
         (Some (js "Сократите на " ++ of_nat (length - limit) ++ js " символов"))]
    else []
  end.

Definition in_range (a b u : Z) : bool := (a <=? u) && (u <=? b).

(** The [emojiPattern] character class (flag [u]). *)
Definition emojiPattern : re :=
  Chr (fun u =>
    in_range 128512 128591 u || in_range 127744 128511 u || in_range 128640 128767 u
    || in_range 128768 128895 u || in_range 128896 129023 u || in_range 129024 129279 u
    || in_range 129280 129535 u || in_range 129536 129647 u || in_range 129648 129791 u
    || in_range 9728 9983 u || in_range 9984 10175 u).

(** [checkEmojis(text, location)]. *)
Definition checkEmojis (text location : jstr) : list violation :=
  match text with
  | [] => []
  | _ =>
    if test false emojiPattern (code_points text) then
      [mkViolation (js "EMOJI_FORBIDDEN") ERROR (js "Эмодзи запрещены") location text
         (Some (js "Удалите все эмодзи"))]
    else []
  end.

(** *** [parseEmailOutput] *)

Record block : Type := mkBlock { b_title : list jstr; b_text : jstr; b_cta : list jstr }.

Record structure : Type := mkStructure {
  subject : list jstr;
  preheader : list jstr;
  bannerTitle : list jstr;
  bannerSubtitle : list jstr;
  introText : jstr;
  introCTA : list jstr;
  productHeading : list jstr;
  blocks : list block
}.

Definition empty_structure : structure := mkStructure [] [] [] [] [] [] [] [].

(** Values of [currentSection]. *)
Inductive section : Type :=
| SecSubject | SecPreheader | SecBanner | SecBannerTitle | SecBannerSubtitle
| SecIntro | SecIntroCTA | SecBlockTitle | SecBlockCTA.

Fixpoint update_nth {A} (n : nat) (f : A -> A) (l : list A) : list A :=
  match l, n with
  | [], _ => []
  | x :: l', O => f x :: l'
  | x :: l', S n' => x :: update_nth n' f l'
  end.

(** [pushVariants(structure, section, variants, currentBlock)]; a block is
    referred to by its index in [structure.blocks], the array that holds
    the same object as [currentBlock]. *)
Definition pushVariants (st : structure) (sec : option section) (variants : list jstr)
    (currentBlock : option nat) : structure :=
  match sec with
  | None => st
  | Some s =>
    match s with
    | SecSubject =>
        mkStructure (subject st ++ variants) (preheader st) (bannerTitle st) (bannerSubtitle st)
          (introText st) (introCTA st) (productHeading st) (blocks st)
    | SecPreheader =>
        mkStructure (subject st) (preheader st ++ variants) (bannerTitle st) (bannerSubtitle st)
          (introText st) (introCTA st) (productHeading st) (blocks st)
    | SecBannerTitle =>
        mkStructure (subject st) (preheader st) (bannerTitle st ++ variants) (bannerSubtitle st)
          (introText st) (introCTA st) (productHeading st) (blocks st)
    | SecBannerSubtitle =>
        mkStructure (subject st) (preheader st) (bannerTitle st) (bannerSubtitle st ++ variants)
          (introText st) (introCTA st) (productHeading st) (blocks st)
    | SecIntro =>
        mkStructure (subject st) (preheader st) (bannerTitle st) (bannerSubtitle st)
          (join (js " ") variants) (introCTA st) (productHeading st) (blocks st)
    | SecIntroCTA =>
        mkStructure (subject st) (preheader st) (bannerTitle st) (bannerSubtitle st)
          (introText st) (introCTA st ++ variants) (productHeading st) (blocks st)
    | SecBlockTitle =>
        match currentBlock with
        | Some b =>
            mkStructure (subject st) (preheader st) (bannerTitle st) (bannerSubtitle st)
              (introText st) (introCTA st) (productHeading st)
              (update_nth b (fun blk => mkBlock (b_title blk ++ variants) (b_text blk) (b_cta blk))
                 (blocks st))
        | None => st
        end
    | SecBlockCTA =>
        match currentBlock with
        | Some b =>
            mkStructure (subject st) (preheader st) (bannerTitle st) (bannerSubtitle st)
              (introText st) (introCTA st) (productHeading st)
              (update_nth b (fun blk => mkBlock (b_title blk) (b_text blk) (b_cta blk ++ variants))
                 (blocks st))
        | None => st
        end
    | SecBanner => st
    end
  end.

(** /^\d+[.)\):]\s*/ *)
Definition number_prefix : re := seqs [Bol; plus digit; cls (js ".):"); Star sp].
(** [—\-—] *)
Definition dash_cls : re := cls (js "—-").

(** The header tests, in the order of the source, over [lineNormalized]. *)
Inductive header : Type :=
| HSubject | HPreheader | HBanner | HBannerTitle | HBannerSubtitle | HIntro | HCTA | HBlock.

Definition header_patterns : list (header * re) := [
  (HSubject, Seq Bol (alts [word "ТЕМА"; word "Тема"; word "Subject"]));
  (HPreheader, Seq Bol (alts [word "ПРЕХЕДЕР"; word "Прехедер"; word "Preheader"]));
  (HBanner, Seq Bol (alts [word "ГЛАВНЫЙ БАННЕР"; word "Главный баннер"; word "Banner"]));
  (HBannerTitle, seqs [Bol; alts [word "Заголовок"; word "Title"; word "ЗАГОЛОВОК"];
                       opt (Seq (plus sp) (word "баннера")); Star sp; dash_cls]);
  (HBannerSubtitle, seqs [Bol; alts [word "Подзаголовок"; word "Subtitle"; word "ПОДЗАГОЛОВОК"];
                          opt (Seq (plus sp) (word "баннера")); Star sp; dash_cls]);
  (HIntro, Seq Bol (alts [word "ВВОДНЫЙ ТЕКСТ"; word "Вводный текст"; word "Intro"]));
  (HCTA, seqs [Bol; alts [word "Кнопка"; word "CTA"; word "КТА"]; Star sp;
               cls ([58; 65306] ++ js "—-")]);
  (HBlock, seqs [Bol; alts [word "БЛОК"; word "Блок"]; plus sp; plus digit])
].

Definition find_header (lineNormalized : jstr) : option header :=
  option_map fst (find (fun hp => test true (snd hp) lineNormalized) header_patterns).

(** /^(\d+[.)\-]|[-•*])\s+/ *)
Definition variant_marker : re :=
  seqs [Bol; alts [Seq (plus digit) (cls (js ".)-")); cls (js "-•*")]; plus sp].

(** Parser state: structure, [currentSection], [currentBlock], [variantBuffer]. *)
Record pstate : Type := mkP {
  p_st : structure; p_sec : option section; p_block : option nat; p_buf : list jstr
}.

(** The flush done at a header: [if (variantBuffer.length > 0) pushVariants(...)]. *)
Definition flush (ps : pstate) (cb : option nat) : structure :=
  match p_buf ps with
  | [] => p_st ps
  | buf => pushVariants (p_st ps) (p_sec ps) buf cb
  end.

Definition header_section (h : header) : section :=
  match h with
  | HSubject => SecSubject | HPreheader => SecPreheader | HBanner => SecBanner
  | HBannerTitle => SecBannerTitle | HBannerSubtitle => SecBannerSubtitle
  | HIntro => SecIntro | HCTA => SecIntroCTA | HBlock => SecBlockTitle
  end.

(** One iteration of the loop over [lines]. *)
Definition parse_line (ps : pstate) (raw : jstr) : pstate :=
  let line := trim raw in
  match line with
  | [] => ps
  | _ =>
    let lineNormalized := replace_first false number_prefix [] line in
    match find_header lineNormalized with
    | Some HBlock =>
        let st := flush ps (p_block ps) in
        let st' := mkStructure (subject st) (preheader st) (bannerTitle st) (bannerSubtitle st)
                     (introText st) (introCTA st) (productHeading st)
                     (blocks st ++ [mkBlock [] [] []]) in
        mkP st' (Some SecBlockTitle) (Some (List.length (blocks st))) []
    | Some h => mkP (flush ps None) (Some (header_section h)) (p_block ps) []
    | None =>
        if test false variant_marker line then
          let cleaned := trim (replace_first false variant_marker [] line) in
          mkP (p_st ps) (p_sec ps) (p_block ps) (p_buf ps ++ [cleaned])
        else ps
    end
  end.

(** [parseEmailOutput(output)]: [None] is the [null] of an empty output. *)
Definition parseEmailOutput (output : jstr) : option structure :=
  match output with
  | [] => None
  | _ =>
    let ps := fold_left parse_line (split_lines output) (mkP empty_structure None None []) in
    Some (match p_buf ps with
          | [] => p_st ps
          | buf => pushVariants (p_st ps) (p_sec ps) buf (p_block ps)
          end)
  end.

(** *** [extract3Grams] *)

(** The punctuation class of [extract3Grams] (flag g): . , ! ? ; : — – -
    « » the ASCII double and single quotes, ( ) [ ]. *)
Definition punct : re := cls (js ".,!?;:—–-«»" ++ [34; 39] ++ js "()[]").

Fixpoint mem (x : jstr) (l : list jstr) : bool :=
  match l with [] => false | y :: l' => jstr_eqb x y || mem x l' end.

(** [set.add(x)] on a set kept as its insertion-ordered elements. *)
Definition set_add (s : list jstr) (x : jstr) : list jstr :=
  if mem x s then s else s ++ [x].

Fixpoint trigrams (words : list jstr) : list jstr :=
  match words with
  | w0 :: ((w1 :: w2 :: _) as rest) => (w0 ++ [32] ++ w1 ++ [32] ++ w2) :: trigrams rest
  | _ => []
  end.

Definition extract3Grams (text : jstr) : list jstr :=
  match text with
  | [] => []
  | _ =>
    let normalized :=
      trim (replace_all false (plus sp) [32] (replace_all false punct [32] (toLowerCase text))) in
    let words := filter (fun w => Nat.ltb 0 (List.length w)) (split_on 32 normalized) in
    fold_left set_add (trigrams words) []
  end.

(** *** [validateEmail] *)

(** [spec.variantCounts]: a missing key reads as [undefined], and
    [n < undefined] is false. *)
Record variantCounts : Type := mkCounts {
  vc_subject : option nat; vc_preheader : option nat; vc_bannerTitle : option nat
}.

Definition default_counts : variantCounts := mkCounts (Some 3%nat) (Some 3%nat) (Some 3%nat).

Definition lt_opt (n : nat) (o : option nat) : bool :=
  match o with Some k => Nat.ltb n k | None => false end.

Record email_result : Type := mkEmailResult {
  valid : bool;
  e_violations : list violation;
  e_structure : option structure
}.

Definition variant_count_check (n : nat) (req : option nat) (label loc : jstr)
    (vars : list jstr) : list violation :=
  if lt_opt n req then
    [mkViolation (js "VARIANT_COUNT_INSUFFICIENT") ERROR
       (js "Недостаточно вариантов " ++ label ++ js ": " ++ of_nat n ++ js " < "
          ++ match req with Some k => of_nat k | None => js "undefined" end)
       loc (join (js "; ") vars) None]
  else [].

Definition keyParts (st : structure) : list (jstr * jstr) := [
  (js "subject", join [32] (subject st));
  (js "preheader", join [32] (preheader st));
  (js "bannerTitle", join [32] (bannerTitle st));
  (js "bannerSubtitle", join [32] (bannerSubtitle st));
  (js "intro", introText st)
].

(** The trigram check for the pair [(i, j)] of [partNames]. *)
Definition trigram_pair (a b : jstr * jstr) : list violation :=
  let grams1 := extract3Grams (snd a) in
  let grams2 := extract3Grams (snd b) in
  let intersection := filter (fun g => mem g grams2) grams1 in
  match intersection with
  | [] => []
  | _ =>
    [mkViolation (js "TRIGRAM_DUPLICATION") ERROR
       (js "Дублирование 3+ слов между " ++ fst a ++ js " и " ++ fst b)
       (fst a ++ js " <-> " ++ fst b)
       (join (js "; ") (firstn 3 intersection))
       (Some (js "Переформулируйте один из фрагментов"))]
  end.

(** [for (i ...) for (j = i + 1 ...)]: each unordered pair once. *)
Fixpoint pairs_check (parts : list (jstr * jstr)) : list violation :=
  match parts with
  | [] => []
  | a :: rest => flat_map (trigram_pair a) rest ++ pairs_check rest
  end.

Definition equality_check (xs ys : list jstr) (msg loc : jstr) : list violation :=
  flat_map (fun x =>
    flat_map (fun y =>
      if jstr_eqb (trim x) (trim y)
      then [mkViolation (js "EXACT_EQUALITY") ERROR msg loc x None]
      else []) ys) xs.

(** Splitting on a pattern that matches no empty string. *)
Fixpoint split_re_from (ci : bool) (r : re) (s : jstr) (n p : nat) : list jstr :=
  match n with
  | O => [skipn p s]
  | S n' =>
    match search ci r s p with
    | Some (a, b, _) =>
        if Nat.ltb a b then slice s p a :: split_re_from ci r s n' b else [skipn p s]
    | None => [skipn p s]
    end
  end.

Definition split_re (ci : bool) (r : re) (s : jstr) : list jstr :=
  split_re_from ci r s (S (List.length s)) 0.

(** /\n\n+|<br\s*\/?>/gi *)
Definition paragraph_sep : re :=
  Alt (seqs [ch 10; plus (ch 10)]) (seqs [word "<br"; Star sp; opt (ch 47); ch 62]).

(** The block check; a parsed block has no [description] or [copy], so
    its [blockText] is its [text]. *)
Definition block_check (index : nat) (blk : block) : list violation :=
  let blockText := b_text blk in
  let paragraphs := filter (fun p => Nat.ltb 0 (List.length (trim p)))
                      (split_re true paragraph_sep blockText) in
  if Nat.ltb 2 (List.length paragraphs) then
    [mkViolation (js "BLOCK_TOO_LONG") WARNING
       (js "В блоке " ++ of_nat (S index) ++ js " больше 2 абзацев (найдено: "
          ++ of_nat (List.length paragraphs) ++ js ")")
       (js "blocks[" ++ of_nat index ++ js "]")
       (substring blockText 0 100 ++ (if Nat.ltb 100 (List.length blockText) then js "..." else []))
       (Some (js "Сократите до 1-2 абзацев, сохранив только ключевые факты из FACTS/KEY_POINTS"))]
  else [].

Fixpoint blocks_check (i : nat) (bs : list block) : list violation :=
  match bs with
  | [] => []
  | b :: bs' => block_check i b ++ blocks_check (S i) bs'
  end.

Definition servicePatterns : list re := [
  Seq (opt (ch 91)) (word "CHECK"); Seq (opt (ch 91)) (word "VALID");
  word "PREFLIGHT"; word "violation";
  word "все правила соблюдены"; word "проверка пройдена"
].

Definition service_check (output : jstr) (pat : re) : list violation :=
  match exec true pat output with
  | Some (matchIndex, matchedText) =>
      let idx := Z.of_nat matchIndex in
      let len := Z.of_nat (List.length output) in
      let contextBefore := substring output (Z.max 0 (idx - 10)) idx in
      let contextAfter :=
        substring output idx (Z.min len (idx + Z.of_nat (List.length matchedText) + 10)) in
      let fullContext := contextBefore ++ contextAfter in
      if test true (Alt (word "SWChecks_bot") (word "@SWChecks_bot")) fullContext then []
      else
        [mkViolation (js "SERVICE_PHRASE_DETECTED") ERROR
           (js "Обнаружены служебные фразы или чеклисты в выводе") (js "output") matchedText
           (Some (js "Удалите все служебные фразы, показывайте только контент"))]
  | None => []
  end.

Definition per_text (checks : list (jstr -> jstr -> list violation)) (loc : jstr)
    (texts : list jstr) : list violation :=
  flat_map (fun t => flat_map (fun chk => chk t loc) checks) texts.

(** The checks run on a parsed structure, in the order of the source. *)
Definition structure_checks (output : jstr) (counts : variantCounts) (st : structure)
  : list violation :=
  variant_count_check (List.length (subject st)) (vc_subject counts)
    (js "темы") (js "subject") (subject st)
  ++ variant_count_check (List.length (preheader st)) (vc_preheader counts)
    (js "прехедера") (js "preheader") (preheader st)
  ++ variant_count_check (List.length (bannerTitle st)) (vc_bannerTitle counts)
    (js "заголовка баннера") (js "bannerTitle") (bannerTitle st)
  ++ per_text [fun t l => checkCharLimit t 30 l; checkEmojis; checkForbiddenWords;
               checkBannedCliches; checkGeographyLabels] (js "subject") (subject st)
  ++ per_text [fun t l => checkCharLimit t 75 l; checkEmojis; checkForbiddenWords;
               checkBannedCliches; checkGeographyLabels] (js "preheader") (preheader st)
  ++ per_text [checkEmojis; checkForbiddenWords; checkBannedCliches; checkGeographyLabels]
       (js "bannerTitle") (bannerTitle st)
  ++ per_text [checkEmojis; checkForbiddenWords; checkBannedCliches; checkGeographyLabels]
       (js "bannerSubtitle") (bannerSubtitle st)
  ++ checkForbiddenWords (introText st) (js "intro")
  ++ checkBannedCliches (introText st) (js "intro")
  ++ checkGeographyLabels (introText st) (js "intro")
  ++ per_text [checkForbiddenWords] (js "introCTA") (introCTA st)
  ++ pairs_check (keyParts st)
  ++ equality_check (subject st) (bannerTitle st)
       (js "Тема не должна точно совпадать с заголовком баннера") (js "subject == bannerTitle")
  ++ equality_check (preheader st) (bannerSubtitle st)
       (js "Прехедер не должен точно совпадать с подзаголовком баннера")
       (js "preheader == bannerSubtitle")
  ++ blocks_check 0 (blocks st)
  ++ flat_map (service_check output) servicePatterns.

Definition parse_failed (output : jstr) : violation :=
  mkViolation (js "PARSE_FAILED") ERROR (js "Не удалось распарсить структуру email")
    (js "output") (substring output 0 100) None.

(** [validateEmail(output, parsedBrief, spec)]; [spec_counts] is
    [spec.variantCounts] ([None] when absent, which selects the default). *)
Definition validateEmail (output : jstr) (spec_counts : option variantCounts) : email_result :=
  match parseEmailOutput output with
  | None => mkEmailResult false [parse_failed output] None
  | Some st =>
      let counts := match spec_counts with Some c => c | None => default_counts end in
      let violations := structure_checks output counts st in
      mkEmailResult (Nat.eqb (error_count violations) 0) violations (Some st)
  end.

End Email.

(** ** The multiformat validator (validatorMultiformat.js) *)
Module Multiformat.

(** A parsed variant: [number] from [parseInt], and the optional fields
    ([undefined] is [None]). *)
Record mvariant : Type := mkVariant {
  number : Z;
  title : option jstr;
  subtitle : option jstr;
  text : option jstr;
  description : option jstr;
  button : option jstr
}.

Definition new_variant (n : Z) : mvariant := mkVariant n None None None None None.

Inductive msection : Type :=
| push_announce | push_reminder | push_last_call
| sms_announce | sms_reminder | sms_last_call
| yandex_maps | onboarding | landing_page | tabs
| sticky_banner | sticky_banner_timer | ticker.

Definition msection_eqb (a b : msection) : bool :=
  match a, b with
  | push_announce, push_announce | push_reminder, push_reminder
  | push_last_call, push_last_call | sms_announce, sms_announce
  | sms_reminder, sms_reminder | sms_last_call, sms_last_call
  | yandex_maps, yandex_maps | onboarding, onboarding
  | landing_page, landing_page | tabs, tabs | sticky_banner, sticky_banner
  | sticky_banner_timer, sticky_banner_timer | ticker, ticker => true
  | _, _ => false
  end.

Definition section_name (s : msection) : jstr :=
  match s with
  | push_announce => js "push_announce" | push_reminder => js "push_reminder"
  | push_last_call => js "push_last_call" | sms_announce => js "sms_announce"
  | sms_reminder => js "sms_reminder" | sms_last_call => js "sms_last_call"
  | yandex_maps => js "yandex_maps" | onboarding => js "onboarding"
  | landing_page => js "landing_page" | tabs => js "tabs"
  | sticky_banner => js "sticky_banner" | sticky_banner_timer => js "sticky_banner_timer"
  | ticker => js "ticker"
  end.

(** The [sections] object: one array per section. *)
Definition sections := msection -> list mvariant.

Definition empty_sections : sections := fun _ => [].

Definition update_section (ss : sections) (s : msection) (f : list mvariant -> list mvariant)
  : sections := fun s' => if msection_eqb s s' then f (ss s) else ss s'.

Definition dash3 : re := cls (js "—–-").
Definition hdr (l : list re) : re := seqs l.

(** The header tests of [parseGeneratedContent], in source order. *)
Definition section_headers : list (msection * re) := [
  (push_announce, hdr [word "1.1."; Star sp; word "ПУШ"; Star sp; dash3; Star sp; word "АНОНС"]);
  (push_reminder, hdr [word "1.2."; Star sp; word "ПУШ"; Star sp; dash3; Star sp; word "НАПОМИНАНИЕ"]);
  (push_last_call, hdr [word "1.3."; Star sp; word "ПУШ"; Star sp; dash3; Star sp;
                        word "ПОСЛЕДНИЙ"; Star sp; word "ЗВОНОК"]);
  (sms_announce, hdr [word "2.1."; Star sp; word "СМС"; Star sp; dash3; Star sp; word "АНОНС"]);
  (sms_reminder, hdr [word "2.2."; Star sp; word "СМС"; Star sp; dash3; Star sp; word "НАПОМИНАНИЕ"]);
  (sms_last_call, hdr [word "2.3."; Star sp; word "СМС"; Star sp; dash3; Star sp;
                       word "ПОСЛЕДНИЙ"; Star sp; word "ЗВОНОК"]);
  (yandex_maps, hdr [word "3.1."; Star sp; word "ЯНДЕКС"; Star sp; word "КАРТЫ"]);
  (onboarding, hdr [word "3.2."; Star sp; word "ОНБОРДИНГ"]);
  (landing_page, hdr [word "3.3."; Star sp; word "ТЕКСТ"; Star sp; word "НА"; Star sp; word "LP"]);
  (tabs, hdr [word "3.4."; Star sp; word "ТАБЫ"]);
  (sticky_banner, hdr [word "3.5."; Star sp; word "СТИКИ-БАННЕР"; Star sp; word "БЕЗ";
                       Star sp; word "ТАЙМЕРА"]);
  (sticky_banner_timer, hdr [word "3.6."; Star sp; word "СТИКИ-БАННЕР"; Star sp; word "С";
                             Star sp; word "ТАЙМЕРОМ"]);
  (ticker, hdr [word "3.7."; Star sp; word "БЕГУЩАЯ"; Star sp; word "СТРОКА"])
].

(** /^-?\s*Вариант\s*(\d+)/i *)
Definition variant_start : re :=
  seqs [Bol; opt (ch 45); Star sp; word "Вариант"; Star sp; Group 1 (plus digit)].
(** /^-?\s*Вариант\s*\d+:\s*(.+)/i *)
Definition single_line : re :=
  seqs [Bol; opt (ch 45); Star sp; word "Вариант"; Star sp; plus digit; ch 58; Star sp;
        Group 1 (plus any)].
(** /Label:\s*(.+)/i *)
Definition field_re (label : string) : re := seqs [word label; ch 58; Star sp; Group 1 (plus any)].

Fixpoint parse_digits (acc : Z) (ds : jstr) : Z :=
  match ds with [] => acc | d :: ds' => parse_digits (acc * 10 + (d - 48)) ds' end.

(** Parser state: [sections], [currentSection], and [currentVariant] as a
    reference to the object: its section and its index in that array. *)
Record pstate : Type := mkP {
  p_sections : sections; p_sec : option msection; p_var : option (msection * nat)
}.

Definition update_variant (ss : sections) (ref : msection * nat) (f : mvariant -> mvariant)
  : sections := update_section ss (fst ref) (Email.update_nth (snd ref) f).

Definition set_if (o : option jstr) (old : option jstr) : option jstr :=
  match o with Some t => Some (trim t) | None => old end.

Definition is_sms (s : msection) : bool :=
  match s with sms_announce | sms_reminder | sms_last_call => true | _ => false end.

Definition is_single_line (s : msection) : bool :=
  match s with ticker | sticky_banner | sticky_banner_timer => true | _ => false end.

(** One iteration of [for (const line of lines)]. *)
Definition parse_line (ps : pstate) (line : jstr) : pstate :=
  let trimmed := trim line in
  let sec := match find (fun h => test true (snd h) trimmed) section_headers with
             | Some (s, _) => Some s
             | None => p_sec ps
             end in
  match sec, trimmed with
  | Some cs, _ :: _ =>
      let '(ss1, cv) :=
        match exec_group true variant_start 1 trimmed with
        | Some ds =>
            let idx := List.length (p_sections ps cs) in
            (update_section (p_sections ps) cs (fun l => l ++ [new_variant (parse_digits 0 ds)]),
             Some (cs, idx))
        | None => (p_sections ps, p_var ps)
        end in
      match cv with
      | Some ref =>
          let titleMatch := exec_group true (field_re "Заголовок") 1 trimmed in
          let subtitleMatch := exec_group true (field_re "Подзаголовок") 1 trimmed in
          let textMatch := exec_group true (field_re "Текст") 1 trimmed in
          let descMatch := exec_group true (field_re "Описание") 1 trimmed in
          let buttonMatch := exec_group true (field_re "Кнопка") 1 trimmed in
          let ss2 := update_variant ss1 ref (fun v =>
                       mkVariant (number v) (set_if titleMatch (title v))
                         (set_if subtitleMatch (subtitle v)) (set_if textMatch (text v))
                         (set_if descMatch (description v)) (set_if buttonMatch (button v))) in
          let single := match textMatch with
                        | None =>
                            if is_sms cs || is_single_line cs
                            then exec_group true single_line 1 trimmed else None
                        | Some _ => None
                        end in
          let ss3 := match single with
                     | Some t => update_variant ss2 ref (fun v =>
                                   mkVariant (number v) (title v) (subtitle v) (Some (trim t))
                                     (description v) (button v))
                     | None => ss2
                     end in
          mkP ss3 sec cv
      | None => mkP ss1 sec cv
      end
  | _, _ => mkP (p_sections ps) sec (p_var ps)
  end.

(** [parseGeneratedContent(content)]. *)
Definition parseGeneratedContent (content : jstr) : sections :=
  p_sections (fold_left parse_line (split_lines content) (mkP empty_sections None None)).

(** The validator's mutable state: the [violations] array and [stats]. *)
Record mstate : Type := mkM {
  m_violations : list violation; totalChecks : nat; errors : nat; warnings : nat
}.

(** [violations.push(v)], [stats.totalChecks++], [stats.errors++],
    [stats.warnings++]. *)
Definition push (v : violation) (s : mstate) : mstate :=
  mkM (m_violations s ++ [v]) (totalChecks s) (errors s) (warnings s).
Definition bump_checks (s : mstate) : mstate :=
  mkM (m_violations s) (S (totalChecks s)) (errors s) (warnings s).
Definition bump_errors (s : mstate) : mstate :=
  mkM (m_violations s) (totalChecks s) (S (errors s)) (warnings s).
Definition bump_warnings (s : mstate) : mstate :=
  mkM (m_violations s) (totalChecks s) (errors s) (S (warnings s)).

(** [LIMITS]. *)
Definition push_title_limit : nat := 32.
Definition push_subtitle_limit : nat := 60.
Definition sms_text_limit : nat := 78.
Definition yandex_text_min : nat := 150.
Definition yandex_text_max : nat := 300.
Definition onboarding_title_limit : nat := 40.
Definition onboarding_subtitle_limit : nat := 60.
Definition lp_title_limit : nat := 47.
Definition lp_description_limit : nat := 428.
Definition lp_description_recommended : nat := 375.
Definition sticky_banner_limit : nat := 50.
Definition sticky_banner_timer_limit : nat := 58.
Definition ticker_limit : nat := 40.

(** [forEach] over an array with the index. *)
Fixpoint foreach_idx {A} (f : mstate -> A -> nat -> mstate) (l : list A) (i : nat) (s : mstate)
  : mstate :=
  match l with
  | [] => s
  | x :: l' => foreach_idx f l' (S i) (f s x i)
  end.

(** [`${section} вариант ${variant.number || idx + 1}`]. *)
Definition vloc (sec : jstr) (v : mvariant) (idx : nat) : jstr :=
  sec ++ js " вариант " ++ (if number v =? 0 then of_nat (S idx) else of_nat (Z.to_nat (number v))).

(** [s.length]: UTF-16 code units. *)
Definition jlen (s : jstr) : nat := List.length s.

(** [x && x.length > limit] for an optional field. *)
Definition over (o : option jstr) (limit : nat) : option jstr :=
  match o with Some (_ :: _ as t) => if Nat.ltb limit (jlen t) then Some t else None | _ => None end.

(** [variant.text || ''] *)
Definition text_or_empty (v : mvariant) : jstr := match text v with Some t => t | None => [] end.

Definition ev_len (t : jstr) : jstr := quoted t ++ js " (" ++ of_nat (jlen t) ++ js " символов)".

Definition push_section_check (sec : msection) (s : mstate) (v : mvariant) (idx : nat) : mstate :=
  let loc := vloc (section_name sec) v idx in
  let s1 := bump_checks s in
  let s2 := match over (title v) push_title_limit with
            | Some t =>
                bump_errors (push (mkViolation (js "PUSH_TITLE_OVERLIMIT") ERROR
                  (js "Пуш заголовок превышает лимит " ++ of_nat push_title_limit ++ js " символов")
                  loc (ev_len t)
                  (Some (js "Сократите до " ++ of_nat push_title_limit ++ js " символов"))) s1)
            | None => s1
            end in
  let s3 := bump_checks s2 in
  match over (subtitle v) push_subtitle_limit with
  | Some t =>
      bump_errors (push (mkViolation (js "PUSH_SUBTITLE_OVERLIMIT") ERROR
        (js "Пуш подзаголовок превышает лимит " ++ of_nat push_subtitle_limit ++ js " символов")
        loc (ev_len t)
        (Some (js "Сократите до " ++ of_nat push_subtitle_limit ++ js " символов"))) s3)
  | None => s3
  end.

Definition sms_section_check (sec : msection) (s : mstate) (v : mvariant) (idx : nat) : mstate :=
  let s1 := bump_checks s in
  match over (text v) sms_text_limit with
  | Some t =>
      bump_errors (push (mkViolation (js "SMS_TEXT_OVERLIMIT") ERROR
        (js "SMS текст превышает лимит " ++ of_nat sms_text_limit ++ js " символов (без учёта "
            ++ quoted (js "по карте №12345") ++ js ")")
        (vloc (section_name sec) v idx) (ev_len t)
        (Some (js "Сократите до " ++ of_nat sms_text_limit ++ js " символов"))) s1)
  | None => s1
  end.

Definition yandex_check (s : mstate) (v : mvariant) (idx : nat) : mstate :=
  let s1 := bump_checks s in
  let t := text_or_empty v in
  let loc := js "yandex_maps вариант " ++ (if number v =? 0 then of_nat (S idx)
                                          else of_nat (Z.to_nat (number v))) in
  let s2 := if Nat.ltb (jlen t) yandex_text_min then
              bump_warnings (push (mkViolation (js "YANDEX_TEXT_UNDERLIMIT") WARNING
                (js "Яндекс Карты текст меньше минимума " ++ of_nat yandex_text_min ++ js " символов")
                loc (ev_len t) None) s1)
            else s1 in
  if Nat.ltb yandex_text_max (jlen t) then
    bump_errors (push (mkViolation (js "YANDEX_TEXT_OVERLIMIT") ERROR
      (js "Яндекс Карты текст превышает лимит " ++ of_nat yandex_text_max ++ js " символов")
      loc (ev_len t) None) s2)
  else s2.

Definition onboarding_check (s : mstate) (v : mvariant) (idx : nat) : mstate :=
  let s1 := bump_checks s in
  let loc := vloc (js "onboarding") v idx in
  let s2 := match over (title v) onboarding_title_limit with
            | Some t =>
                bump_errors (push (mkViolation (js "ONBOARDING_TITLE_OVERLIMIT") ERROR
                  (js "Онбординг заголовок превышает лимит " ++ of_nat onboarding_title_limit
                      ++ js " символов") loc (ev_len t) None) s1)
            | None => s1
            end in
  match over (subtitle v) onboarding_subtitle_limit with
  | Some t =>
      bump_errors (push (mkViolation (js "ONBOARDING_SUBTITLE_OVERLIMIT") ERROR
        (js "Онбординг подзаголовок превышает лимит " ++ of_nat onboarding_subtitle_limit
            ++ js " символов") loc (ev_len t) None) s2)
  | None => s2
  end.

Definition lp_check (s : mstate) (v : mvariant) (idx : nat) : mstate :=
  let s1 := bump_checks s in
  let loc := vloc (js "landing_page") v idx in
  let s2 := match over (title v) lp_title_limit with
            | Some t =>
                bump_errors (push (mkViolation (js "LP_TITLE_OVERLIMIT") ERROR
                  (js "LP заголовок превышает лимит " ++ of_nat lp_title_limit ++ js " символов")
                  loc (ev_len t) None) s1)
            | None => s1
            end in
  match over (description v) lp_description_limit with
  | Some d =>
      bump_errors (push (mkViolation (js "LP_DESC_OVERLIMIT") ERROR
        (js "LP описание превышает лимит " ++ of_nat lp_description_limit ++ js " символов")
        loc (js "(" ++ of_nat (jlen d) ++ js " символов)") None) s2)
  | None =>
      match over (description v) lp_description_recommended with
      | Some d =>
          bump_warnings (push (mkViolation (js "LP_DESC_OVER_RECOMMENDED") WARNING
            (js "LP описание превышает рекомендуемые " ++ of_nat lp_description_recommended
                ++ js " символов")
            loc (js "(" ++ of_nat (jlen d) ++ js " символов)") None) s2)
      | None => s2
      end
  end.

(** The three checks on [variant.text || ''] against one limit. *)
Definition text_limit_check (sec : msection) (c : jstr) (label : jstr) (limit : nat)
    (s : mstate) (v : mvariant) (idx : nat) : mstate :=
  let s1 := bump_checks s in
  let t := text_or_empty v in
  if Nat.ltb limit (jlen t) then
    bump_errors (push (mkViolation c ERROR
      (label ++ of_nat limit ++ js " символов") (vloc (section_name sec) v idx) (ev_len t) None) s1)
  else s1.

(** [checkLengthLimits(sections, violations, stats)]. *)
Definition checkLengthLimits (ss : sections) (s : mstate) : mstate :=
  let s := fold_left (fun s sec => foreach_idx (push_section_check sec) (ss sec) 0 s)
             [push_announce; push_reminder; push_last_call] s in
  let s := fold_left (fun s sec => foreach_idx (sms_section_check sec) (ss sec) 0 s)
             [sms_announce; sms_reminder; sms_last_call] s in
  let s := foreach_idx yandex_check (ss yandex_maps) 0 s in
  let s := foreach_idx onboarding_check (ss onboarding) 0 s in
  let s := foreach_idx lp_check (ss landing_page) 0 s in
  let s := foreach_idx (text_limit_check sticky_banner (js "STICKY_TEXT_OVERLIMIT")
             (js "Стики-баннер текст превышает лимит ") sticky_banner_limit)
             (ss sticky_banner) 0 s in
  let s := foreach_idx (text_limit_check sticky_banner_timer (js "STICKY_TIMER_TEXT_OVERLIMIT")
             (js "Стики-баннер с таймером превышает лимит ") sticky_banner_timer_limit)
             (ss sticky_banner_timer) 0 s in
  foreach_idx (text_limit_check ticker (js "TICKER_TEXT_OVERLIMIT")
    (js "Бегущая строка превышает лимит ") ticker_limit) (ss ticker) 0 s.

Definition SMS_FORBIDDEN_ALCOHOL : list jstr :=
  map js ["вино"; "вина"; "вином"; "вину"; "алкогол"; "игрист"; "крепк"; "шампан";
          "коньяк"; "виски"; "водк"; "текил"; "ром"; "красн"; "бел"; "просекко"; "кава"]%string.

Definition sms_alcohol_check (sec : msection) (s : mstate) (v : mvariant) (idx : nat) : mstate :=
  let s1 := bump_checks s in
  let t := toLowerCase (text_or_empty v) in
  match find (fun w => includes t w) SMS_FORBIDDEN_ALCOHOL with
  | Some w =>
      bump_errors (push (mkViolation (js "SMS_ALCOHOL_MENTION") ERROR
        (js "SMS содержит упоминание алкоголя (" ++ quoted w ++ js ")")
        (vloc (section_name sec) v idx) (text_or_empty v)
        (Some (js "Используйте: " ++ quoted (js "коллекция") ++ js ", " ++ quoted (js "ассортимент")
                 ++ js ", " ++ quoted (js "хиты") ++ js ", " ++ quoted (js "подборка") ++ js ", "
                 ++ quoted (js "выгода")))) s1)
  | None => s1
  end.

(** [checkSMSAlcoholRestrictions]; the inner loop stops at the first word
    found ([break]). *)
Definition checkSMSAlcoholRestrictions (ss : sections) (s : mstate) : mstate :=
  fold_left (fun s sec => foreach_idx (sms_alcohol_check sec) (ss sec) 0 s)
    [sms_announce; sms_reminder; sms_last_call] s.

Definition sticky_timer_check (s : mstate) (v : mvariant) (idx : nat) : mstate :=
  let s1 := bump_checks s in
  let t := text_or_empty v in
  if negb (includes t (js "[таймер]")) && negb (includes t (js "[timer]")) then
    bump_errors (push (mkViolation (js "STICKY_TIMER_MISSING_TAG") ERROR
      (js "Стики-баннер с таймером должен заканчиваться на [таймер]")
      (vloc (js "sticky_banner_timer") v idx) t
      (Some (js "Добавьте [таймер] в конец текста"))) s1)
  else s1.

Definition checkStickyTimerFormat (ss : sections) (s : mstate) : mstate :=
  foreach_idx sticky_timer_check (ss sticky_banner_timer) 0 s.

(** [abbreviationPatterns] (flags [gi]). *)
Definition abbreviationPatterns : list re := [
  seqs [WordB; word "т.к."]; seqs [WordB; word "т.е."]; seqs [WordB; word "и т.д."];
  seqs [WordB; word "и т.п."]; seqs [WordB; word "др."]; seqs [WordB; word "г."];
  seqs [WordB; word "руб."]; seqs [WordB; word "тыс."]; seqs [WordB; word "млн."]
].

Definition checkAbbreviations (content : jstr) (s : mstate) : mstate :=
  fold_left (fun s pat =>
    match match_all true pat content with
    | m0 :: _ =>
        bump_warnings (push (mkViolation (js "ABBREVIATED_WORD") WARNING
          (js "Найдено сокращённое слово: " ++ quoted m0) (js "Общий текст") m0
          (Some (js "Запрещено сокращать слова"))) s)
    | [] => s
    end) abbreviationPatterns (bump_checks s).

(** [а-яё] *)
Definition cyr_lower : re := Chr (fun u => Email.in_range 1072 1103 u || (u =? 1105)).

Definition checkForbiddenNapitok (content : jstr) (s : mstate) : mstate :=
  let s1 := bump_checks s in
  if test true (seqs [word "напит"; cls (js "оа"); word "к"]) content then
    bump_errors (push (mkViolation (js "FORBIDDEN_NAPITOK") ERROR
      (js "Слово " ++ quoted (js "напиток") ++ js " запрещено") (js "Общий текст")
      (match Email.match_text true (seqs [word "напит"; cls (js "оа"); word "к"; Star cyr_lower])
               content with
       | Some t => Email.or_else t (js "напиток")
       | None => js "напиток"
       end)
      (Some (js "Используйте конкретные названия: вино, игристое, коньяк"))) s1)
  else s1.

Definition checkCTARules (content : jstr) (s : mstate) : mstate :=
  let s1 := bump_checks s in
  let lowerContent := toLowerCase content in
  if test false (Seq WordB (word "купи")) lowerContent then
    if negb (test true (words_sp [seqs [word "купит"; opt (word "ь")]; word "в"; word "винотек"])
               content) then
      bump_errors (push (mkViolation (js "FORBIDDEN_KUPIT_CTA") ERROR
        (js "CTA " ++ quoted (js "купить") ++ js " запрещён (кроме " ++ quoted (js "купить в винотеке")
            ++ js ")") (js "Общий текст")
        (match Email.match_text true
                 (seqs [word "купи"; opt (cls (js "тьа")); Star (Chr (fun u => negb (is_space u)))])
                 content with
         | Some t => Email.or_else t (js "купить")
         | None => js "купить"
         end)
        (Some (js "Используйте: " ++ quoted (js "Заказать") ++ js ", " ++ quoted (js "Выбрать")
                 ++ js ", " ++ quoted (js "Открыть")))) s1)
    else s1
  else s1.

(** /-?\d{1,2}%/g *)
Definition discountPattern : re := seqs [opt (ch 45); digit; upto 1 digit; ch 37].

(** [m.replace('-', '')]: the first hyphen only. *)
Fixpoint drop_first_hyphen (s : jstr) : jstr :=
  match s with
  | [] => []
  | u :: s' => if u =? 45 then s' else u :: drop_first_hyphen s'
  end.

Definition variant_text (v : mvariant) : jstr :=
  join (js " ") (filter (fun t => Nat.ltb 0 (List.length t))
                   (map (fun o => match o with Some t => t | None => [] end)
                        [title v; subtitle v; text v; description v])).

Definition checkMessageConsistency (ss : sections) (s : mstate) : mstate :=
  let s1 := bump_checks s in
  let allVariants := flat_map ss [push_announce; push_reminder; push_last_call; sms_announce;
                                  sms_reminder; sms_last_call; onboarding; landing_page; ticker;
                                  sticky_banner; sticky_banner_timer] in
  let foundDiscounts :=
    fold_left (fun found v =>
      fold_left (fun f m => Email.set_add f (drop_first_hyphen m))
        (match_all false discountPattern (variant_text v)) found) allVariants [] in
  if Nat.ltb 2 (List.length foundDiscounts) then
    bump_warnings (push (mkViolation (js "INCONSISTENT_DISCOUNTS") WARNING
      (js "Найдены разные значения скидок: " ++ join (js ", ") foundDiscounts) (js "Все форматы")
      (join (js ", ") foundDiscounts)
      (Some (js "Убедитесь, что цифры скидок идентичны во всех форматах"))) s1)
  else s1.

Record mresult : Type := mkMResult {
  isValid : bool; mf_violations : list violation; stats_checks : nat;
  stats_errors : nat; stats_warnings : nat
}.

(** [validateMultiformat(generatedContent, parsedBrief)]; the brief is
    passed on to [checkMessageConsistency], which does not read it. *)
Definition validateMultiformat (generatedContent : jstr) : mresult :=
  let ss := parseGeneratedContent generatedContent in
  let s := mkM [] 0 0 0 in
  let s := checkLengthLimits ss s in
  let s := checkSMSAlcoholRestrictions ss s in
  let s := checkStickyTimerFormat ss s in
  let s := checkAbbreviations generatedContent s in
  let s := checkForbiddenNapitok generatedContent s in
  let s := checkCTARules generatedContent s in
  let s := checkMessageConsistency ss s in
  mkMResult (Nat.eqb (errors s) 0) (m_violations s) (totalChecks s) (errors s) (warnings s).

End Multiformat.

(** ** Surgical repair (surgicalRepair.js) *)
Module Surgical.

Record scope : Type := mkScope { field : jstr; requiresFullContext : bool }.

Definition fullContextCodes : list jstr :=
  map js ["EXACT_EQUALITY"; "TRIGRAM_DUPLICATION"; "CROSS_FIELD_SIMILARITY"]%string.

Definition validLocations : list jstr :=
  map js ["subject"; "preheader"; "bannerTitle"; "bannerSubtitle"; "body"; "cta"]%string.

(** [determineRepairScope(violation)]. *)
Definition determineRepairScope (v : violation) : scope :=
  if Email.mem (code v) fullContextCodes then mkScope (js "all") true
  else if Email.mem (location v) validLocations then mkScope (location v) false
  else mkScope (js "all") true.

Definition dash_cls : re := cls (js "—-").
Definition variants_tail : re :=
  seqs [Star sp; dash_cls; Star sp; plus digit; Star sp; word "вариант"; opt (cls (js "аов"))].

(** [sectionPatterns[fieldName]]; [None] for a name that is not a key. *)
Definition sectionPattern (fieldName : jstr) : option re :=
  if jstr_eqb fieldName (js "subject") then Some (Seq (word "ТЕМА") variants_tail)
  else if jstr_eqb fieldName (js "preheader") then Some (Seq (word "ПРЕХЕДЕР") variants_tail)
  else if jstr_eqb fieldName (js "bannerTitle") then
    Some (seqs [alts [word "ЗАГОЛОВОК"; word "Title"; word "ЗАГОЛОВОК БАННЕРА"]; Star sp; dash_cls])
  else if jstr_eqb fieldName (js "bannerSubtitle") then
    Some (seqs [alts [word "ПОДЗАГОЛОВОК"; word "Subtitle"; word "ПОДЗАГОЛОВОК БАННЕРА"];
                Star sp; dash_cls])
  else if jstr_eqb fieldName (js "body") then Some (seqs [word "ТЕЛО"; Star sp; word "ПИСЬМА"])
  else if jstr_eqb fieldName (js "cta") then Some (word "CTA")
  else None.

(** /^(ТЕМА|ПРЕХЕДЕР|ЗАГОЛОВОК|ПОДЗАГОЛОВОК|ТЕЛО|CTA)\s*[—\-—]/i *)
Definition isNewSection : re :=
  seqs [Bol; alts [word "ТЕМА"; word "ПРЕХЕДЕР"; word "ЗАГОЛОВОК"; word "ПОДЗАГОЛОВОК";
                   word "ТЕЛО"; word "CTA"]; Star sp; dash_cls].

(** The boundary loop of [replaceField]: from line [i] on, with
    [inSection] and [sectionStart]; returns [(sectionStart, sectionEnd)],
    [-1] standing for unset. *)
Fixpoint find_bounds (pattern : re) (lines : list jstr) (i : nat) (inSection : bool)
    (sectionStart : Z) : Z * Z :=
  match lines with
  | [] => (sectionStart, -1)
  | l :: rest =>
      let line := trim l in
      if negb inSection && test true pattern line then
        find_bounds pattern rest (S i) true (Z.of_nat i)
      else if inSection && test true isNewSection line then (sectionStart, Z.of_nat i)
      else find_bounds pattern rest (S i) inSection sectionStart
  end.

(** The members every object literal inherits from [Object.prototype]. *)
Definition prototypeMembers : list jstr :=
  map js ["constructor"; "__defineGetter__"; "__defineSetter__"; "hasOwnProperty";
          "__lookupGetter__"; "__lookupSetter__"; "isPrototypeOf"; "propertyIsEnumerable";
          "toString"; "valueOf"; "__proto__"; "toLocaleString"]%string.

(** [sectionPatterns[fieldName]]: an own pattern, an inherited member (a
    function or an object, truthy, without a [test] method) or [undefined]. *)
Inductive lookup : Type :=
| OwnPattern (r : re)
| Inherited
| Undefined.

Definition sectionPatterns_get (fieldName : jstr) : lookup :=
  match sectionPattern fieldName with
  | Some r => OwnPattern r
  | None => if Email.mem fieldName prototypeMembers then Inherited else Undefined
  end.

(** [replaceField(output, fieldName, newContent)]; [None] is the
    TypeError thrown by [pattern.test(line)] on the first line when the
    looked-up member is not a RegExp. *)
Definition replaceField (output fieldName newContent : jstr) : option jstr :=
  match sectionPatterns_get fieldName with
  | Undefined => Some output
  | Inherited => None
  | OwnPattern pattern =>
      let lines := split_lines output in
      let '(sectionStart, sectionEnd0) := find_bounds pattern lines 0 false (-1) in
      if sectionStart =? -1 then Some output
      else
        let sectionEnd := if sectionEnd0 =? -1 then List.length lines else Z.to_nat sectionEnd0 in
        Some (join_lines (firstn (Z.to_nat sectionStart) lines ++ [newContent; []]
                          ++ skipn sectionEnd lines))
  end.

End Surgical.

(** ** The orchestrators (generateMultiformat.js, generateEmail.js)

    The text generator is the external collaborator: [llm n p] is what the
    [n]-th call returns for prompt [p], a draft or a thrown error.  The
    progress callback only reports and is left out. *)
Module Orchestrator.

Inductive prompt : Type :=
| Initial
| Repair (lastDraft : jstr) (violations : list violation).

Inductive outcome : Type :=
| Draft (text : jstr)
| Failure (msg : jstr).

(** The default [Array.prototype.sort] order: code units compared
    lexicographically, a proper prefix first. *)
Fixpoint jstr_ltb (a b : jstr) : bool :=
  match a, b with
  | _, [] => false
  | [], _ :: _ => true
  | x :: a', y :: b' => (x <? y) || ((x =? y) && jstr_ltb a' b')
  end.

Section Loops.

(** The validation record of the orchestrator's validator, its
    [isValid] (or [valid]) flag and its [violations]. *)
Context {V : Type} (validate : jstr -> V) (is_valid : V -> bool)
        (viols : V -> list violation).

Record attempt : Type := mkAttempt { index : nat; draft : jstr; validation : V }.

(** The returned object.  [generateMultiformat] returns [attemptHistory];
    [generateEmail] keeps its history internal (its object has
    [structure] and [warning] instead), so for the email orchestrator the
    field holds the loop's internal history, which its best-attempt
    selection reads. *)
Record result : Type := mkResult {
  success : bool;
  content : jstr;
  r_violations : list violation;
  attempts : nat;
  attemptHistory : list attempt
}.

(** A session either returns a result or throws. *)
Inductive session : Type :=
| Returned (r : result)
| Thrown (msg : jstr).

Variable llm : nat -> prompt -> outcome.

(** *** [generateMultiformat] *)

(** The loop state: [lastDraft], [lastValidation], [attemptHistory]. *)
Record lstate : Type := mkL { lastDraft : jstr; lastValidation : V; history : list attempt }.

Inductive loop_end : Type :=
| Early (r : result)
| Exhausted (s : lstate).

(** [for (let attempt = a; attempt <= MAX; attempt++)], with [n]
    iterations left; a thrown error is caught and the loop goes on. *)
Fixpoint mf_loop (n a : nat) (s : lstate) : loop_end :=
  match n with
  | O => Exhausted s
  | S n' =>
      match llm a (Repair (lastDraft s) (viols (lastValidation s))) with
      | Failure _ => mf_loop n' (S a) s
      | Draft d =>
          let v := validate d in
          let h := history s ++ [mkAttempt a d v] in
          if is_valid v then Early (mkResult true d [] a h)
          else mf_loop n' (S a) (mkL d v h)
      end
  end.

Definition DEFAULT_MAX_REPAIR_ATTEMPTS : nat := 3.

Definition run_multiformat (enableRepairLoop : bool) : session :=
  let MAX := if enableRepairLoop then DEFAULT_MAX_REPAIR_ATTEMPTS else 1%nat in
  match llm 1 Initial with
  | Failure e => Thrown (js "Ошибка генерации: " ++ e)
  | Draft d =>
      let v := validate d in
      let h := [mkAttempt 1 d v] in
      if is_valid v || negb enableRepairLoop then
        Returned (mkResult (is_valid v) d (viols v) 1 h)
      else
        match mf_loop (MAX - 1) 2 (mkL d v h) with
        | Early r => Returned r
        | Exhausted s =>
            Returned (mkResult false (lastDraft s) (viols (lastValidation s)) MAX (history s))
        end
  end.

(** *** [generateEmail] *)

Fixpoint insert_sorted (x : jstr) (l : list jstr) : list jstr :=
  match l with
  | [] => [x]
  | y :: l' => if jstr_ltb x y then x :: l else y :: insert_sorted x l'
  end.

(** [generateViolationSignature(violations)]. *)
Definition generateViolationSignature (vs : list violation) : jstr :=
  join (js "|") (fold_right insert_sorted [] (map (fun v => code v ++ js ":" ++ location v) vs)).

(** The email loop also ends early when the violation signature repeats. *)
Fixpoint email_loop (n a : nat) (s : lstate) : loop_end :=
  match n with
  | O => Exhausted s
  | S n' =>
      match llm a (Repair (lastDraft s) (viols (lastValidation s))) with
      | Failure _ => email_loop n' (S a) s
      | Draft d =>
          let v := validate d in
          let h := history s ++ [mkAttempt a d v] in
          if is_valid v then Early (mkResult true d [] a h)
          else
            let prev := match nth_error h (List.length h - 2) with
                        | Some p => viols (validation p) | None => [] end in
            if Nat.ltb 2 a
               && jstr_eqb (generateViolationSignature prev) (generateViolationSignature (viols v))
            then Exhausted (mkL d v h)
            else email_loop n' (S a) (mkL d v h)
      end
  end.

Definition attempt_errors (x : attempt) : nat := error_count (viols (validation x)).

(** [attemptHistory.reduce((best, current) => currentErrors < bestErrors ?
    current : best, attemptHistory[0])]. *)
Definition best_attempt (first : attempt) (rest : list attempt) : attempt :=
  fold_left (fun best current =>
    if Nat.ltb (attempt_errors current) (attempt_errors best) then current else best) rest first.

Definition run_email_max (MAX : nat) : session :=
  match llm 1 Initial with
  | Failure e => Thrown (js "Initial generation failed: " ++ e)
  | Draft d =>
      let v := validate d in
      let a1 := mkAttempt 1 d v in
      if is_valid v then Returned (mkResult true d [] 1 [a1])
      else
        match email_loop (MAX - 1) 2 (mkL d v [a1]) with
        | Early r => Returned r
        | Exhausted s =>
            let h := history s in
            let best := match h with x :: rest => best_attempt x rest | [] => a1 end in
            Returned (mkResult false (draft best) (viols (validation best)) (List.length h) h)
        end
  end.

Definition run_email (enableRepairLoop : bool) : session :=
  run_email_max (if enableRepairLoop then DEFAULT_MAX_REPAIR_ATTEMPTS else 1%nat).

End Loops.

(** The orchestrators with their validators. *)
Definition generateMultiformat (llm : nat -> prompt -> outcome) (enableRepairLoop : bool) : session :=
  run_multiformat Multiformat.validateMultiformat Multiformat.isValid Multiformat.mf_violations
    llm enableRepairLoop.

(** [requirements.variantCounts] as [extractSpecRequirements] builds it. *)
Definition generateEmail (counts : Email.variantCounts) (llm : nat -> prompt -> outcome)
    (enableRepairLoop : bool) : session :=
  run_email (fun d => Email.validateEmail d (Some counts)) Email.valid Email.e_violations
    llm enableRepairLoop.

End Orchestrator.

(** ** Field extraction and the surgical repair step (surgicalRepair.js) *)
Module SurgicalRepair.
Import Surgical Orchestrator.

(** The collection part of [extractField]'s loop, once [inSection] is set:
    the trimmed lines up to the next section header. *)
Fixpoint collect_section (lines : list jstr) : list jstr :=
  match lines with
  | [] => []
  | l :: rest =>
      let line := trim l in
      if test true isNewSection line then [] else line :: collect_section rest
  end.

(** The loop of [extractField] before the header is found: the header line
    is pushed and the loop goes on in the section. *)
Fixpoint extract_lines (pattern : re) (lines : list jstr) : list jstr :=
  match lines with
  | [] => []
  | l :: rest =>
      let line := trim l in
      if test true pattern line then line :: collect_section rest
      else extract_lines pattern rest
  end.

(** [extractField(output, fieldName)]: [Some None] is the [null] of an
    unknown field or of a field not found; [None] is the TypeError thrown
    by [pattern.test(line)] when the looked-up member is inherited. *)
Definition extractField (output fieldName : jstr) : option (option jstr) :=
  match sectionPatterns_get fieldName with
  | Undefined => Some None
  | Inherited => None
  | OwnPattern pattern =>
      match extract_lines pattern (split_lines output) with
      | [] => Some None
      | extractedLines => Some (Some (trim (join_lines extractedLines)))
      end
  end.

(** [fieldLabels[fieldName] || fieldName] in a template literal: an own
    label, the string form of an inherited member of [Object.prototype]
    (a native function, or the prototype object itself for [__proto__]),
    or the field name. *)
Definition fieldLabel (fieldName : jstr) : jstr :=
  if jstr_eqb fieldName (js "subject") then js "темы письма"
  else if jstr_eqb fieldName (js "preheader") then js "прехедера"
  else if jstr_eqb fieldName (js "bannerTitle") then js "заголовка баннера"
  else if jstr_eqb fieldName (js "bannerSubtitle") then js "подзаголовка баннера"
  else if jstr_eqb fieldName (js "body") then js "тела письма"
  else if jstr_eqb fieldName (js "cta") then js "CTA"
  else if jstr_eqb fieldName (js "__proto__") then js "[object Object]"
  else if jstr_eqb fieldName (js "constructor") then js "function Object() { [native code] }"
  else if Email.mem fieldName prototypeMembers then
    js "function " ++ fieldName ++ js "() { [native code] }"
  else fieldName.

(** [violation.suggestedFix || 'Устрани указанную проблему']. *)
Definition fix_text (v : violation) : jstr :=
  match suggestedFix v with
  | Some (_ :: _ as f) => f
  | _ => js "Устрани указанную проблему"
  end.

(** [buildSurgicalRepairPrompt(fieldName, currentContent, violation, parsedBrief)]. *)
Definition buildSurgicalRepairPrompt (fieldName currentContent : jstr) (v : violation)
    (parsedBrief : jstr) : jstr :=
  let label := fieldLabel fieldName in
  js "Ты — email-маркетолог. Нужно исправить " ++ label ++ js ".

**ТЕКУЩИЙ ВАРИАНТ:**
" ++ currentContent ++ js "

**ПРОБЛЕМА:**
" ++ message v ++ js "

**КОНТЕКСТ ИЗ БРИФА:**
" ++ substring parsedBrief 0 500 ++ js "...

**ЗАДАЧА:**
Перепиши ТОЛЬКО варианты " ++ label ++ js ", исправив проблему.
Сохрани тот же стиль и креативное направление, но:
" ++ fix_text v ++ js "

**ФОРМАТ ВЫВОДА:**
Выведи только секцию " ++ label ++ js " с исправленными вариантами в том же формате.".

(** The settled value of [surgicalRepair]'s promise: resolved with a string
    or [null], or rejected. *)
Inductive repair_result : Type :=
| Resolved (o : option jstr)
| Rejected (msg : jstr).

Definition TypeError : jstr := js "TypeError: pattern.test is not a function".

(** [surgicalRepair(violation, currentOutput, parsedBrief, knowledge, callLLM)];
    [callLLM] receives the prompt (its only message) and settles with the
    repaired field or a failure.  [knowledge] is not read. *)
Definition surgicalRepair (v : violation) (currentOutput parsedBrief : jstr)
    (callLLM : jstr -> outcome) : repair_result :=
  let sc := determineRepairScope v in
  if requiresFullContext sc then Resolved None
  else
    match extractField currentOutput (field sc) with
    | None => Rejected TypeError
    | Some None | Some (Some []) => Resolved None
    | Some (Some currentFieldContent) =>
        match callLLM (buildSurgicalRepairPrompt (field sc) currentFieldContent v parsedBrief) with
        | Failure e => Rejected e
        | Draft repairedField =>
            match replaceField currentOutput (field sc) repairedField with
            | None => Rejected TypeError
            | Some o => Resolved (Some o)
            end
        end
    end.

End SurgicalRepair.

(** * Invariants and scenarios *)

(** The multiformat counter invariant: [stats.errors] equals the number of
    ERROR violations pushed so far. *)
Definition inv (s : Multiformat.mstate) : Prop :=
  Multiformat.errors s = error_count (Multiformat.m_violations s).

(** A violation that does not carry the code [PARSE_FAILED]. *)
Definition no_pf (v : violation) : bool := negb (jstr_eqb (code v) (js "PARSE_FAILED")).

(** A text check whose violations never carry [PARSE_FAILED]. *)
Definition text_check_ok (chk : jstr -> jstr -> list violation) : Prop :=
  forall t l, forallb no_pf (chk t l) = true.

(** A line on which [replaceField] finds no field header. *)
Definition no_header (pattern : re) (l : jstr) : Prop := test true pattern (trim l) = false.

(** A line that does not start a new section. *)
Definition not_new_section (l : jstr) : Prop := test true Surgical.isNewSection (trim l) = false.

(** The codes of the email validator's per-text checks. *)
Definition text_check_codes : list jstr :=
  map js ["CHAR_LIMIT_EXCEEDED"; "EMOJI_FORBIDDEN"; "FORBIDDEN_DEGUSTATSIYA"; "FORBIDDEN_KUPIT";
          "FORBIDDEN_POKUPKA"; "FORBIDDEN_BUKET"; "FORBIDDEN_POSLEVKUSIE"; "BANNED_CLICHE";
          "GEOGRAPHY_LABEL_MISUSE"]%string.

(** A violation as a per-text check raises it at [l]. *)
Definition text_violation_at (l : jstr) (v : violation) : Prop :=
  severity_of v = ERROR /\ location v = l /\ Email.mem (code v) text_check_codes = true.

(** What [parseEmailOutput] keeps along its loop: [productHeading] stays
    empty, every block keeps an empty [text] and [cta], and the current
    section is never [blockCTA]. *)
Definition parse_inv (ps : Email.pstate) : Prop :=
  Email.productHeading (Email.p_st ps) = [] /\
  Forall (fun b => Email.b_text b = [] /\ Email.b_cta b = []) (Email.blocks (Email.p_st ps)) /\
  Email.p_sec ps <> Some Email.SecBlockCTA.

(** [violations.filter(v => v.severity === WARNING).length]. *)
Definition is_warning (v : violation) : bool := severity_eqb (severity_of v) WARNING.
Definition warning_count (vs : list violation) : nat := List.length (filter is_warning vs).

(** The multiformat counter invariant with the warnings: both counters
    match the violations pushed so far, and none of them is an INFO. *)
Definition inv_w (s : Multiformat.mstate) : Prop :=
  inv s /\ Multiformat.warnings s = warning_count (Multiformat.m_violations s) /\
  Forall (fun v => severity_of v <> INFO) (Multiformat.m_violations s).

(** The invariant of both repair loops before attempt [a]: the last
    validation is the validator's result on the last draft and fails, and
    the recorded attempts come before [a], in increasing order, each with
    the validator's (failing) result on its draft. *)
Definition loop_inv {V : Type} (validate : jstr -> V) (is_valid : V -> bool) (a : nat)
    (s : @Orchestrator.lstate V) : Prop :=
  Orchestrator.lastValidation s = validate (Orchestrator.lastDraft s) /\
  is_valid (Orchestrator.lastValidation s) = false /\
  Forall (fun x => Orchestrator.validation x = validate (Orchestrator.draft x) /\
                   is_valid (Orchestrator.validation x) = false /\ (Orchestrator.index x < a)%nat)
    (Orchestrator.history s) /\
  StronglySorted lt (map Orchestrator.index (Orchestrator.history s)).

(** A well-formed attempt history of at most [MAX] attempts: attempt 1
    first, increasing attempt numbers, each with the validator's result on
    its draft. *)
Definition history_ok {V : Type} (validate : jstr -> V) (MAX : nat)
    (h : list (@Orchestrator.attempt V)) : Prop :=
  (exists d rest, h = Orchestrator.mkAttempt 1 d (validate d) :: rest) /\
  StronglySorted lt (map Orchestrator.index h) /\
  Forall (fun x => Orchestrator.validation x = validate (Orchestrator.draft x) /\
                   (Orchestrator.index x <= MAX)%nat) h.

(** A result returned from inside a repair loop started with the history
    [h0], with attempt numbers below [hi]: a success on a validating draft
    whose history extends [h0], in increasing order, each attempt with the
    validator's result on its draft. *)
Definition early_ok {V : Type} (validate : jstr -> V) (is_valid : V -> bool) (hi : nat)
    (h0 : list (@Orchestrator.attempt V)) (r : @Orchestrator.result V) : Prop :=
  Orchestrator.success r = true /\ Orchestrator.r_violations r = [] /\
  is_valid (validate (Orchestrator.content r)) = true /\
  (Orchestrator.attempts r < hi)%nat /\
  (exists ext, Orchestrator.attemptHistory r = h0 ++ ext) /\
  StronglySorted lt (map Orchestrator.index (Orchestrator.attemptHistory r)) /\
  Forall (fun x => Orchestrator.validation x = validate (Orchestrator.draft x) /\
                   (Orchestrator.index x < hi)%nat) (Orchestrator.attemptHistory r).

Module Scenarios.
Import Email.

(** The count of the spec's words, user-perceived characters, in which a
    combining diacritical mark (U+0300 to U+036F) extends the character
    before it instead of starting a new one. *)
Definition grapheme_count_spec (text : jstr) : nat :=
  List.length (filter (fun cp => negb (in_range 768 879 cp)) (code_points text)).

(** Twenty letters e, each followed by a combining acute accent. *)
Definition accented_subject : jstr := List.concat (repeat [101; 769] 20).

(** Twenty emoji U+1F600, each two UTF-16 code units. *)
Definition emoji_subject : jstr := List.concat (repeat (js "😀") 20).

(** Ninety Cyrillic letters. *)
Definition preheader90 : jstr := List.concat (repeat (js "а") 90).

(** A headerless, non-empty draft. *)
Definition headerless_draft : jstr := js "Купить дешево".

(** The draft of the trigram scenario. *)
Definition trigram_draft : jstr :=
  join_lines [js "ТЕМА"; js "1. Раз два три"; js "ПРЕХЕДЕР"; js "1. Раз два три"].

(** Ten capital dotted I (U+0130), whose lower case is two code units,
    before the allowed phrase and the word. *)
Definition dotted_i_text : jstr := js "İİİİİİİİİİ в винотеке купить".

Definition FORBIDDEN_KUPIT : jstr := js "FORBIDDEN_KUPIT".
Definition TRIGRAM_DUPLICATION : jstr := js "TRIGRAM_DUPLICATION".

(** A draft with a subject and a preheader section, and a new subject. *)
Definition surgical_draft : jstr :=
  join_lines [js "ТЕМА — 3 варианта"; js "1. Старый"; js "ПРЕХЕДЕР — 3 варианта"; js "1. Текст"].
Definition surgical_subject : jstr := js "ТЕМА — 3 варианта" ++ newline ++ js "1. Новый".

(** Three multiformat drafts with 3, 1 and 2 ERROR violations. *)
Definition mf_draft1 : jstr :=
  join_lines [js "напиток aкупи"; js "3.6. СТИКИ-БАННЕР С ТАЙМЕРОМ"; js "Вариант 1: текст"].
Definition mf_draft2 : jstr := js "напиток".
Definition mf_draft3 : jstr := js "напиток aкупи".

Definition llm_errors_312 (n : nat) (p : Orchestrator.prompt) : Orchestrator.outcome :=
  match n with
  | 1%nat => Orchestrator.Draft mf_draft1
  | 2%nat => Orchestrator.Draft mf_draft2
  | _ => Orchestrator.Draft mf_draft3
  end.

(** Two empty drafts (PARSE_FAILED both times), then a headerless one. *)
Definition llm_parse_failed_twice (n : nat) (p : Orchestrator.prompt) : Orchestrator.outcome :=
  match n with
  | 1%nat | 2%nat => Orchestrator.Draft []
  | _ => Orchestrator.Draft (js "x")
  end.

(** A generator that always returns the empty draft. *)
Definition llm_always_empty (n : nat) (p : Orchestrator.prompt) : Orchestrator.outcome :=
  Orchestrator.Draft [].

(** A generator whose first call fails. *)
Definition llm_first_fails (n : nat) (p : Orchestrator.prompt) : Orchestrator.outcome :=
  match n with
  | 1%nat => Orchestrator.Failure (js "timeout")
  | _ => Orchestrator.Draft []
  end.

(** A generator whose second call fails. *)
Definition llm_second_fails (n : nat) (p : Orchestrator.prompt) : Orchestrator.outcome :=
  match n with
  | 2%nat => Orchestrator.Failure (js "timeout")
  | _ => Orchestrator.Draft []
  end.

End Scenarios.

(** * Properties *)

(** ** Counting ERROR violations *)

Lemma error_count_app (a b : list violation) :
  error_count (a ++ b) = (error_count a + error_count b)%nat.
Proof. unfold error_count. rewrite filter_app, length_app. reflexivity. Qed.

Lemma jstr_eqb_true (a b : jstr) : jstr_eqb a b = true -> a = b.
Proof.
  revert b; induction a as [|x a IH]; intros [|y b] H; try discriminate; [reflexivity|].
  simpl in H; apply andb_prop in H as [H1 H2]. apply Z.eqb_eq in H1; subst.
  f_equal; auto.
Qed.

(** ** The multiformat counters

    [stats.errors] always equals the number of ERROR violations pushed so
    far: every push of an ERROR is followed by [stats.errors++], every push
    of a WARNING by [stats.warnings++]. *)
Module MultiformatFacts.
Import Multiformat.

Lemma inv_err (v : violation) (s : mstate) :
  inv s -> severity_of v = ERROR -> inv (bump_errors (push v s)).
Proof.
  unfold inv; cbn [errors m_violations bump_errors push]; intros H Hv.
  rewrite error_count_app, <- H. unfold error_count, is_error; cbn. rewrite Hv; cbn. lia.
Qed.

Lemma inv_warn (v : violation) (s : mstate) :
  inv s -> severity_of v = WARNING -> inv (bump_warnings (push v s)).
Proof.
  unfold inv; cbn [errors m_violations bump_warnings push]; intros H Hv.
  rewrite error_count_app, <- H. unfold error_count, is_error; cbn. rewrite Hv; cbn. lia.
Qed.

Lemma inv_checks (s : mstate) : inv s -> inv (bump_checks s).
Proof. unfold inv; simpl; auto. Qed.

Lemma inv_foreach {A} (f : mstate -> A -> nat -> mstate) (l : list A) :
  (forall s x i, inv s -> inv (f s x i)) -> forall i s, inv s -> inv (foreach_idx f l i s).
Proof. intros Hf; induction l as [|x l IH]; simpl; auto. Qed.

Lemma inv_fold {A} (f : mstate -> A -> mstate) (l : list A) :
  (forall s x, inv s -> inv (f s x)) -> forall s, inv s -> inv (fold_left f l s).
Proof. intros Hf; induction l as [|x l IH]; simpl; auto. Qed.

Ltac inv_tac :=
  repeat (cbv beta zeta; match goal with
  | |- inv (bump_errors (push _ _)) => apply inv_err; [|reflexivity]
  | |- inv (bump_warnings (push _ _)) => apply inv_warn; [|reflexivity]
  | |- inv (bump_checks _) => apply inv_checks
  | |- inv (foreach_idx _ _ _ _) => apply inv_foreach; [intros|]
  | |- inv (fold_left _ _ _) => apply inv_fold; [intros|]
  | |- inv (match ?e with _ => _ end) => destruct e
  | |- inv (if ?b then _ else _) => destruct b
  end); try assumption.

Lemma checkLengthLimits_inv ss s : inv s -> inv (checkLengthLimits ss s).
Proof.
  intros H; unfold checkLengthLimits, push_section_check, sms_section_check, yandex_check,
    onboarding_check, lp_check, text_limit_check; inv_tac.
Qed.

Lemma checkSMSAlcoholRestrictions_inv ss s : inv s -> inv (checkSMSAlcoholRestrictions ss s).
Proof. intros H; unfold checkSMSAlcoholRestrictions, sms_alcohol_check; inv_tac. Qed.

Lemma checkStickyTimerFormat_inv ss s : inv s -> inv (checkStickyTimerFormat ss s).
Proof. intros H; unfold checkStickyTimerFormat, sticky_timer_check; inv_tac. Qed.

Lemma checkAbbreviations_inv c s : inv s -> inv (checkAbbreviations c s).
Proof. intros H; unfold checkAbbreviations; inv_tac. Qed.

Lemma checkForbiddenNapitok_inv c s : inv s -> inv (checkForbiddenNapitok c s).
Proof. intros H; unfold checkForbiddenNapitok; inv_tac. Qed.

Lemma checkCTARules_inv c s : inv s -> inv (checkCTARules c s).
Proof. intros H; unfold checkCTARules; inv_tac. Qed.

Lemma checkMessageConsistency_inv ss s : inv s -> inv (checkMessageConsistency ss s).
Proof. intros H; unfold checkMessageConsistency; inv_tac. Qed.

Lemma validateMultiformat_counts (c : jstr) :
  stats_errors (validateMultiformat c) = error_count (mf_violations (validateMultiformat c)).
Proof.
  unfold validateMultiformat; cbv zeta; simpl.
  apply checkMessageConsistency_inv, checkCTARules_inv, checkForbiddenNapitok_inv,
    checkAbbreviations_inv, checkStickyTimerFormat_inv, checkSMSAlcoholRestrictions_inv,
    checkLengthLimits_inv.
  reflexivity.
Qed.

End MultiformatFacts.

(** ** The email validator *)
Module EmailFacts.
Import Email.

Lemma forallb_flat_map {A B} (p : B -> bool) (f : A -> list B) (l : list A) :
  (forall x, forallb p (f x) = true) -> forallb p (flat_map f l) = true.
Proof.
  intros H; induction l as [|x l IH]; simpl; auto.
  rewrite forallb_app, H, IH; reflexivity.
Qed.

Lemma count_code_nil (c : jstr) (vs : list violation) :
  forallb (fun v => negb (jstr_eqb (code v) c)) vs = true -> count_code c vs = 0%nat.
Proof.
  unfold count_code; induction vs as [|v vs IH]; simpl; auto.
  intros H; apply andb_prop in H as [H1 H2].
  destruct (jstr_eqb (code v) c); [discriminate|]. auto.
Qed.

Ltac no_pf_tac :=
  repeat (cbv beta zeta; match goal with
  | |- forallb _ (_ ++ _) = true => rewrite forallb_app; apply andb_true_intro; split
  | |- forallb _ (flat_map _ _) = true => apply forallb_flat_map; intros
  | |- forallb _ (match ?e with _ => _ end) = true => destruct e
  | |- forallb _ (if ?b then _ else _) = true => destruct b
  | |- forallb _ _ = true => reflexivity
  end).

Lemma checkCharLimit_ok n : text_check_ok (fun t l => checkCharLimit t n l).
Proof. intros t l; unfold checkCharLimit; no_pf_tac. Qed.

Lemma checkEmojis_ok : text_check_ok checkEmojis.
Proof. intros t l; unfold checkEmojis; no_pf_tac. Qed.

Lemma checkForbiddenWords_ok : text_check_ok checkForbiddenWords.
Proof. intros t l; unfold checkForbiddenWords; no_pf_tac. Qed.

Lemma checkBannedCliches_ok : text_check_ok checkBannedCliches.
Proof. intros t l; unfold checkBannedCliches; no_pf_tac. Qed.

Lemma checkGeographyLabels_ok : text_check_ok checkGeographyLabels.
Proof. intros t l; unfold checkGeographyLabels; no_pf_tac. Qed.

Lemma per_text_ok checks loc texts :
  Forall text_check_ok checks -> forallb no_pf (per_text checks loc texts) = true.
Proof.
  intros H; unfold per_text; apply forallb_flat_map; intros t.
  induction H as [|chk checks Hc _ IH]; simpl; auto.
  rewrite forallb_app, Hc, IH; reflexivity.
Qed.

Lemma pairs_check_ok parts : forallb no_pf (pairs_check parts) = true.
Proof.
  induction parts as [|a parts IH]; simpl; auto.
  rewrite forallb_app, IH, andb_true_r.
  apply forallb_flat_map; intros b; unfold trigram_pair; no_pf_tac.
Qed.

Lemma blocks_check_ok i bs : forallb no_pf (blocks_check i bs) = true.
Proof.
  revert i; induction bs as [|b bs IH]; intros i; simpl; auto.
  rewrite forallb_app, IH, andb_true_r. unfold block_check; no_pf_tac.
Qed.

Lemma structure_checks_ok output counts st :
  forallb no_pf (structure_checks output counts st) = true.
Proof.
  unfold structure_checks.
  repeat (rewrite forallb_app; apply andb_true_intro; split);
    try (apply per_text_ok; repeat constructor;
         first [apply checkCharLimit_ok | apply checkEmojis_ok | apply checkForbiddenWords_ok
               | apply checkBannedCliches_ok | apply checkGeographyLabels_ok]);
    try apply checkForbiddenWords_ok; try apply checkBannedCliches_ok;
    try apply checkGeographyLabels_ok; try apply pairs_check_ok; try apply blocks_check_ok.
  - unfold variant_count_check; no_pf_tac.
  - unfold variant_count_check; no_pf_tac.
  - unfold variant_count_check; no_pf_tac.
  - unfold equality_check; no_pf_tac.
  - unfold equality_check; no_pf_tac.
  - apply forallb_flat_map; intros pat; unfold service_check; no_pf_tac.
Qed.

Lemma parseEmailOutput_some (output : jstr) : output <> [] -> parseEmailOutput output <> None.
Proof. destruct output; simpl; [contradiction | discriminate]. Qed.

(** [parseEmailOutput] on a non-empty output none of whose lines is a
    section header: nothing is pushed, the structure stays empty. *)
Lemma parseEmailOutput_no_header (output : jstr) :
  output <> [] ->
  Forall (fun raw => find_header (replace_first false number_prefix [] (trim raw)) = None)
    (split_lines output) ->
  parseEmailOutput output = Some empty_structure.
Proof.
  intros Hne Hl; unfold parseEmailOutput; destruct output as [|c rest]; [contradiction|].
  assert (H0 : forall ps, p_st ps = empty_structure -> p_sec ps = None ->
     p_st (fold_left parse_line (split_lines (c :: rest)) ps) = empty_structure /\
     p_sec (fold_left parse_line (split_lines (c :: rest)) ps) = None).
  { induction Hl as [|raw ls Hraw _ IH]; intros ps Hst Hsec; [auto|].
    cbn [fold_left]; apply IH; unfold parse_line; cbv zeta;
      destruct (trim raw) as [|u line]; auto; rewrite Hraw;
      destruct (test false variant_marker _); auto. }
  destruct (H0 (mkP empty_structure None None []) eq_refl eq_refl) as [Hst Hsec].
  destruct (fold_left _ _ _) as [st sec cb buf]; cbn in Hst, Hsec |- *; subst.
  destruct buf; reflexivity.
Qed.

(** The raw output is read only by the service-phrase checks, which come
    last; every other check reads the structure. *)
Lemma structure_checks_raw (output : jstr) (counts : variantCounts) (st : structure) :
  structure_checks output counts st
  = structure_checks [] counts st ++ flat_map (service_check output) servicePatterns.
Proof.
  assert (H0 : flat_map (service_check []) servicePatterns = []) by (vm_compute; reflexivity).
  unfold structure_checks; rewrite H0, app_nil_r, <- !app_assoc; reflexivity.
Qed.

(** On the empty structure only the variant counts and the service
    phrases can report. *)
Lemma structure_checks_empty (output : jstr) (counts : variantCounts) :
  Forall (fun v => code v = js "VARIANT_COUNT_INSUFFICIENT" \/ code v = js "SERVICE_PHRASE_DETECTED")
    (structure_checks output counts empty_structure).
Proof.
  rewrite structure_checks_raw; apply Forall_app; split.
  - unfold structure_checks; rewrite !Forall_app; repeat split;
      first [unfold variant_count_check; destruct (lt_opt _ _);
             repeat constructor; left; reflexivity
            | vm_compute; constructor].
  - assert (H : forall pats, Forall (fun v => code v = js "SERVICE_PHRASE_DETECTED")
                               (flat_map (service_check output) pats)).
    { induction pats as [|pat pats IH]; [constructor|].
      cbn [flat_map]; apply Forall_app; split; [|exact IH].
      unfold service_check; destruct (exec true pat output) as [[i m]|]; [|constructor].
      cbv zeta; destruct (test true _ _); repeat constructor. }
    eapply Forall_impl; [|apply H]; intros v Hv; right; exact Hv.
Qed.

End EmailFacts.

Lemma count_code_app (c : jstr) (a b : list violation) :
  count_code c (a ++ b) = (count_code c a + count_code c b)%nat.
Proof. unfold count_code. rewrite filter_app, length_app. reflexivity. Qed.

(** ** Claims on the email validator *)
Module EmailClaims.
Import Email EmailFacts Scenarios.

(** C3 (counterexample): a non-empty draft with no recognised header
    yields an empty structure; no PARSE_FAILED is reported, and the word
    ban is not applied to the raw text. *)
Lemma headerless_no_parse_failed :
  e_structure (validateEmail headerless_draft (Some default_counts)) = Some empty_structure /\
  count_code (js "PARSE_FAILED") (e_violations (validateEmail headerless_draft (Some default_counts)))
    = 0%nat /\
  count_code FORBIDDEN_KUPIT (e_violations (validateEmail headerless_draft (Some default_counts)))
    = 0%nat.
Proof. vm_compute. repeat split; reflexivity. Qed.

(** C3 (amended): [validateEmail] reports PARSE_FAILED only for the empty
    draft, and then it is the only violation, with no structure.  For
    every non-empty draft a structure is extracted and no PARSE_FAILED is
    reported; its violations are those of the checks on the structure
    (which do not read the raw text) followed by the service-phrase
    checks, the only ones run on the raw text.  A non-empty draft none of
    whose lines is a section header gives the empty structure, and then
    only VARIANT_COUNT_INSUFFICIENT and SERVICE_PHRASE_DETECTED can be
    reported: the lexical bans are not applied to its text. *)
Theorem validateEmail_parse_failed (counts : option variantCounts) :
  validateEmail [] counts = mkEmailResult false [parse_failed []] None /\
  (forall output, output <> [] ->
     exists st, e_structure (validateEmail output counts) = Some st /\
       count_code (js "PARSE_FAILED") (e_violations (validateEmail output counts)) = 0%nat /\
       e_violations (validateEmail output counts)
       = structure_checks [] (match counts with Some c => c | None => default_counts end) st
         ++ flat_map (service_check output) servicePatterns) /\
  (forall output, output <> [] ->
     Forall (fun raw => find_header (replace_first false number_prefix [] (trim raw)) = None)
       (split_lines output) ->
     e_structure (validateEmail output counts) = Some empty_structure /\
     Forall (fun v => code v = js "VARIANT_COUNT_INSUFFICIENT" \/
                      code v = js "SERVICE_PHRASE_DETECTED")
       (e_violations (validateEmail output counts))).
Proof.
  split; [reflexivity|split].
  - intros output Hne; unfold validateEmail.
    destruct (parseEmailOutput output) as [st|] eqn:E.
    + exists st; split; [reflexivity|split].
      * simpl. apply count_code_nil, structure_checks_ok.
      * cbn [e_violations]; apply structure_checks_raw.
    + exfalso; exact (parseEmailOutput_some output Hne E).
  - intros output Hne Hl; unfold validateEmail.
    rewrite (parseEmailOutput_no_header output Hne Hl); cbv zeta; cbn [e_structure e_violations].
    split; [reflexivity|apply structure_checks_empty].
Qed.

Lemma validateEmail_parse_failed_witness :
  validateEmail [] (Some default_counts) = mkEmailResult false [parse_failed []] None /\
  count_code (js "PARSE_FAILED") (e_violations (validateEmail (js "x") (Some default_counts)))
    = 0%nat /\
  e_structure (validateEmail headerless_draft (Some default_counts)) = Some empty_structure.
Proof.
  split; [|split].
  - apply (validateEmail_parse_failed (Some default_counts)).
  - destruct (proj1 (proj2 (validateEmail_parse_failed (Some default_counts))) (js "x")
                ltac:(discriminate)) as (st & _ & H & _).
    exact H.
  - apply (proj2 (proj2 (validateEmail_parse_failed (Some default_counts))) headerless_draft).
    + discriminate.
    + repeat constructor; vm_compute; reflexivity.
Defined.

(** The email verdict: [valid] is exactly "no ERROR violation". *)
Lemma validateEmail_verdict (output : jstr) (counts : option variantCounts) :
  valid (validateEmail output counts) = Nat.eqb (error_count (e_violations (validateEmail output counts))) 0.
Proof. unfold validateEmail; destruct (parseEmailOutput output); reflexivity. Qed.

(** C8 (counterexample): twenty accented letters, twenty user-perceived
    characters, exceed the subject limit of 30 because each accent is a
    code point of its own. *)
Lemma accented_subject_over_limit :
  grapheme_count_spec accented_subject = 20%nat /\
  map message (checkCharLimit accented_subject 30 (js "subject"))
    = [js "Превышен лимит символов: 40 > 30"].
Proof. vm_compute. split; reflexivity. Qed.

(** C8 (amended): [checkCharLimit] counts code points
    ([Array.from(text).length]), so an emoji counts once; a non-empty text
    of L code points over the limit gives exactly one CHAR_LIMIT_EXCEEDED
    ERROR whose message shows L and the limit and whose fix names the
    overage L - limit (90 against 75: 15); otherwise nothing. *)
Theorem checkCharLimit_overage :
  (forall text limit location,
     checkCharLimit text limit location =
     if negb (Nat.eqb (List.length text) 0) && Nat.ltb limit (array_from_length text) then
       [mkViolation (js "CHAR_LIMIT_EXCEEDED") ERROR
          (js "Превышен лимит символов: " ++ of_nat (array_from_length text) ++ js " > "
             ++ of_nat limit)
          location text
          (Some (js "Сократите на " ++ of_nat (array_from_length text - limit) ++ js " символов"))]
     else []) /\
  List.length emoji_subject = 40%nat /\ checkCharLimit emoji_subject 30 (js "subject") = [] /\
  map (fun v => (severity_of v, message v, suggestedFix v))
      (checkCharLimit preheader90 75 (js "preheader"))
  = [(ERROR, js "Превышен лимит символов: 90 > 75", Some (js "Сократите на 15 символов"))].
Proof.
  split.
  - intros text limit location; destruct text; reflexivity.
  - vm_compute. repeat split; reflexivity.
Qed.

(** C9: the draft with the same three words under ТЕМА and ПРЕХЕДЕР
    yields exactly one TRIGRAM_DUPLICATION, located at subject <-> preheader,
    whose evidence is the shared 3-gram; whatever the variant counts. *)
Theorem trigram_scenario (counts : option variantCounts) :
  exists v,
    filter (fun v => jstr_eqb (code v) TRIGRAM_DUPLICATION)
      (e_violations (validateEmail trigram_draft counts)) = [v] /\
    severity_of v = ERROR /\
    location v = js "subject <-> preheader" /\
    evidence v = js "раз два три".
Proof.
  unfold validateEmail.
  destruct (parseEmailOutput trigram_draft) as [st|] eqn:E; [|vm_compute in E; discriminate].
  vm_compute in E; injection E as <-.
  unfold structure_checks; cbn [e_violations]; rewrite !filter_app.
  unfold variant_count_check at 1 2 3.
  destruct (lt_opt _ (vc_subject _)), (lt_opt _ (vc_preheader _)), (lt_opt _ (vc_bannerTitle _));
    vm_compute; eexists; repeat split; reflexivity.
Qed.

(** C10 (code bug): at most one FORBIDDEN_KUPIT per text, and «купить в
    винотеке» followed by a bare «купить» passes; but the window is cut
    from [text] at the index of «купи» in [text.toLowerCase()], which is
    further right when an earlier character lowers to two code units
    (U+0130): the window around the real occurrence (from 2 to 52) holds
    «в винотеке», yet the violation is reported. *)
Theorem kupit_window :
  (forall text location,
     (count_code FORBIDDEN_KUPIT (checkForbiddenWords text location) <= 1)%nat) /\
  checkForbiddenWords (js "Купить в винотеке сегодня, а потом просто купить еще") (js "subject")
    = [] /\
  indexOf dotted_i_text (js "купи") = 22 /\
  indexOf (toLowerCase dotted_i_text) (js "купи") = 32 /\
  test true vinotek (substring dotted_i_text (22 - 20) (22 + 30)) = true /\
  count_code FORBIDDEN_KUPIT (checkForbiddenWords dotted_i_text (js "subject")) = 1%nat.
Proof.
  split; [|vm_compute; repeat split; reflexivity].
  intros text location; unfold checkForbiddenWords.
  destruct text as [|u text]; [vm_compute; lia|]. cbv zeta.
  rewrite !count_code_app.
  repeat match goal with
  | |- context [if ?b then _ else _] => destruct b
  | |- context [match exec ?c ?p ?t with _ => _ end] => destruct (exec c p t) as [[? ?]|]
  end; vm_compute; lia.
Qed.

End EmailClaims.

(** ** Surgical repair *)
Module SurgicalClaims.
Import Surgical.

(** C5: cross-field codes go to the whole draft, other codes to their
    location when it is a known field and to the whole draft otherwise;
    [requiresFullContext] holds exactly when the field is [all]. *)
Theorem determineRepairScope_table (v : violation) :
  (Email.mem (code v) fullContextCodes = true ->
     determineRepairScope v = mkScope (js "all") true) /\
  (Email.mem (code v) fullContextCodes = false -> Email.mem (location v) validLocations = true ->
     determineRepairScope v = mkScope (location v) false) /\
  (Email.mem (code v) fullContextCodes = false -> Email.mem (location v) validLocations = false ->
     determineRepairScope v = mkScope (js "all") true) /\
  requiresFullContext (determineRepairScope v) = jstr_eqb (field (determineRepairScope v)) (js "all").
Proof.
  unfold determineRepairScope.
  destruct (Email.mem (code v) fullContextCodes) eqn:Hc;
    [|destruct (Email.mem (location v) validLocations) eqn:Hl].
  - repeat split; try discriminate; reflexivity.
  - repeat split; try discriminate; try reflexivity.
    simpl. unfold validLocations in Hl.
    destruct (jstr_eqb (location v) (js "all")) eqn:Ha; [|reflexivity].
    apply jstr_eqb_true in Ha.
    rewrite Ha in Hl; vm_compute in Hl; discriminate.
  - repeat split; try discriminate; reflexivity.
Qed.

Lemma determineRepairScope_table_witness :
  determineRepairScope (mkViolation (js "TRIGRAM_DUPLICATION") ERROR [] (js "subject") [] None)
    = mkScope (js "all") true /\
  determineRepairScope (mkViolation (js "CHAR_LIMIT_EXCEEDED") ERROR [] (js "subject") [] None)
    = mkScope (js "subject") false.
Proof.
  split.
  - apply (proj1 (determineRepairScope_table
             (mkViolation (js "TRIGRAM_DUPLICATION") ERROR [] (js "subject") [] None))).
    vm_compute; reflexivity.
  - apply (proj1 (proj2 (determineRepairScope_table
             (mkViolation (js "CHAR_LIMIT_EXCEEDED") ERROR [] (js "subject") [] None))));
      vm_compute; reflexivity.
Defined.

End SurgicalClaims.

Module ReplaceFieldFacts.
Import Surgical.

Lemma find_bounds_skip pattern pre rest i st :
  Forall (no_header pattern) pre ->
  find_bounds pattern (pre ++ rest) i false st
  = find_bounds pattern rest (i + List.length pre) false st.
Proof.
  intros H; revert i; induction H as [|l pre Hl _ IH]; intros i; simpl.
  - rewrite Nat.add_0_r; reflexivity.
  - unfold no_header in Hl; rewrite Hl; simpl. rewrite IH. f_equal; lia.
Qed.

Lemma find_bounds_hit pattern l rest i st :
  test true pattern (trim l) = true ->
  find_bounds pattern (l :: rest) i false st = find_bounds pattern rest (S i) true (Z.of_nat i).
Proof. intros H; simpl; rewrite H; reflexivity. Qed.

Lemma find_bounds_span pattern mid rest j st :
  Forall not_new_section mid ->
  find_bounds pattern (mid ++ rest) j true st
  = find_bounds pattern rest (j + List.length mid) true st.
Proof.
  intros H; revert j; induction H as [|l mid Hl _ IH]; intros j; simpl.
  - rewrite Nat.add_0_r; reflexivity.
  - unfold not_new_section in Hl; rewrite Hl; simpl. rewrite IH. f_equal; lia.
Qed.

Lemma find_bounds_none pattern lines i :
  Forall (no_header pattern) lines -> find_bounds pattern lines i false (-1) = (-1, -1).
Proof.
  intros H; rewrite <- (app_nil_r lines), find_bounds_skip by exact H; reflexivity.
Qed.

Lemma find_bounds_next pattern next rest j st :
  test true isNewSection (trim next) = true ->
  find_bounds pattern (next :: rest) j true st = (st, Z.of_nat j).
Proof. intros H; simpl; rewrite H; reflexivity. Qed.

Lemma skipn_span (pre : list jstr) header mid post :
  skipn (List.length pre + S (List.length mid)) (pre ++ header :: mid ++ post) = post.
Proof.
  induction pre as [|x pre IH]; simpl; auto.
  induction mid as [|y mid IH]; simpl; auto.
Qed.

Lemma firstn_prefix (pre rest : list jstr) : firstn (List.length pre) (pre ++ rest) = pre.
Proof. induction pre as [|x pre IH]; simpl; f_equal; auto. Qed.

End ReplaceFieldFacts.

(** C6: an unknown field name leaves the draft unchanged, and so does a
    draft without the field's header line; otherwise the lines before the
    header and the lines from the next section header on (or none, at the
    end of the draft) are kept as they are, and the span from the header
    up to there is replaced by the new content followed by one blank line.
    Field names are the names that are not members of [Object.prototype]. *)
Theorem replaceField_local (output fieldName newContent : jstr) :
  Email.mem fieldName Surgical.prototypeMembers = false ->
  (Surgical.sectionPattern fieldName = None ->
     Surgical.replaceField output fieldName newContent = Some output) /\
  (forall pattern, Surgical.sectionPattern fieldName = Some pattern ->
     (Forall (no_header pattern) (split_lines output) ->
        Surgical.replaceField output fieldName newContent = Some output) /\
     (forall pre header mid post,
        split_lines output = pre ++ header :: mid ++ post ->
        Forall (no_header pattern) pre ->
        test true pattern (trim header) = true ->
        Forall not_new_section mid ->
        (post = [] \/ exists next rest,
           post = next :: rest /\ test true Surgical.isNewSection (trim next) = true) ->
        Surgical.replaceField output fieldName newContent
        = Some (join_lines (pre ++ [newContent; []] ++ post)))).
Proof.
  intros Hproto; unfold Surgical.replaceField, Surgical.sectionPatterns_get.
  split; [intros Hp; rewrite Hp, Hproto; reflexivity|].
  intros pattern Hp; rewrite Hp; split.
  - intros Hn; rewrite ReplaceFieldFacts.find_bounds_none by exact Hn; reflexivity.
  - intros pre header mid post Hs Hpre Hh Hmid Hpost.
    rewrite Hs, ReplaceFieldFacts.find_bounds_skip by exact Hpre.
    rewrite ReplaceFieldFacts.find_bounds_hit by exact Hh.
    rewrite ReplaceFieldFacts.find_bounds_span by exact Hmid.
    assert ((Z.of_nat (0 + List.length pre) =? -1) = false) as Hne by (apply Z.eqb_neq; lia).
    destruct Hpost as [->|(next & rest & -> & Hnext)].
    + cbn [Surgical.find_bounds]; cbn beta iota.
      rewrite Hne, Nat2Z.id, Nat.add_0_l, ReplaceFieldFacts.firstn_prefix.
      rewrite Z.eqb_refl, skipn_all. reflexivity.
    + rewrite ReplaceFieldFacts.find_bounds_next by exact Hnext; cbn beta iota.
      assert ((Z.of_nat (S (0 + List.length pre) + List.length mid) =? -1) = false) as Hne'
        by (apply Z.eqb_neq; lia).
      rewrite Hne, Hne', !Nat2Z.id, Nat.add_0_l, ReplaceFieldFacts.firstn_prefix.
      replace (S (List.length pre) + List.length mid)%nat
        with (List.length pre + S (List.length mid))%nat by lia.
      rewrite ReplaceFieldFacts.skipn_span. reflexivity.
Qed.

(** C6 witness: replacing the subject of a two-section draft. *)
Lemma replaceField_local_witness :
  Surgical.replaceField Scenarios.surgical_draft (js "subject") Scenarios.surgical_subject
  = Some (join_lines ([] ++ [Scenarios.surgical_subject; []]
                      ++ [js "ПРЕХЕДЕР — 3 варианта"; js "1. Текст"])).
Proof.
  refine (proj2 (proj2 (replaceField_local Scenarios.surgical_draft (js "subject")
                          Scenarios.surgical_subject _) _ _)
            [] (js "ТЕМА — 3 варианта") [js "1. Старый"]
            [js "ПРЕХЕДЕР — 3 варианта"; js "1. Текст"] _ _ _ _ _).
  - vm_compute; reflexivity.
  - vm_compute; reflexivity.
  - vm_compute; reflexivity.
  - constructor.
  - vm_compute; reflexivity.
  - constructor; [vm_compute; reflexivity | constructor].
  - right; exists (js "ПРЕХЕДЕР — 3 варианта"), [js "1. Текст"]; split; vm_compute; reflexivity.
Defined.

(** ** Verdicts *)

(** C4: for both validators the verdict is true exactly when no
    violation has the ERROR severity. *)
Theorem verdict_iff_no_errors :
  (forall output counts,
     Email.valid (Email.validateEmail output counts) = true <->
     error_count (Email.e_violations (Email.validateEmail output counts)) = 0%nat) /\
  (forall content,
     Multiformat.isValid (Multiformat.validateMultiformat content) = true <->
     error_count (Multiformat.mf_violations (Multiformat.validateMultiformat content)) = 0%nat).
Proof.
  split.
  - intros output counts; rewrite EmailClaims.validateEmail_verdict; apply Nat.eqb_eq.
  - intros content.
    assert (Multiformat.isValid (Multiformat.validateMultiformat content)
            = Nat.eqb (Multiformat.stats_errors (Multiformat.validateMultiformat content)) 0)
      as E by reflexivity.
    rewrite E, MultiformatFacts.validateMultiformat_counts; apply Nat.eqb_eq.
Qed.

Lemma verdict_iff_no_errors_witness :
  Email.valid (Email.validateEmail [] None) = false /\
  Multiformat.isValid (Multiformat.validateMultiformat Scenarios.mf_draft2) = false.
Proof.
  split; apply Bool.not_true_iff_false.
  - rewrite (proj1 verdict_iff_no_errors); vm_compute; discriminate.
  - rewrite (proj2 verdict_iff_no_errors); vm_compute; discriminate.
Defined.

(** ** The orchestrators *)
Module OrchestratorClaims.
Import Orchestrator Scenarios.

(** C1 (code bug): with the repair loop on and drafts of 3, 1 and 2 ERROR
    violations, [generateMultiformat] returns the last draft (2 errors),
    not the one with the fewest errors; the best-attempt selection of the
    email orchestrator, run on the same validator and drafts, returns the
    second draft. *)
Theorem multiformat_returns_last_attempt :
  exists r,
    generateMultiformat llm_errors_312 true = Returned r /\
    success r = false /\
    map (fun a => error_count (Multiformat.mf_violations (validation a))) (attemptHistory r)
      = [3; 1; 2]%nat /\
    content r = mf_draft3 /\
    run_email Multiformat.validateMultiformat Multiformat.isValid Multiformat.mf_violations
      llm_errors_312 true
    = Returned (mkResult false mf_draft2
                  (Multiformat.mf_violations (Multiformat.validateMultiformat mf_draft2)) 3
                  (attemptHistory r)).
Proof. vm_compute. eexists; repeat split; reflexivity. Qed.

Lemma jstr_eqb_refl (a : jstr) : jstr_eqb a a = true.
Proof. induction a as [|x a IH]; simpl; [reflexivity|]. rewrite Z.eqb_refl; exact IH. Qed.


(** C7: a failure of the first call ends the session with an error (in
    both orchestrators, with their messages); a session whose first call
    succeeds never ends with an error; a failed call of a repair attempt is
    skipped: the loop goes on at the next attempt index with the same
    last draft and history. *)
Theorem attempt_failures {V} (validate : jstr -> V) (is_valid : V -> bool)
    (viols : V -> list violation) (llm : nat -> prompt -> outcome) (enableRepairLoop : bool) :
  (forall e, llm 1%nat Initial = Failure e ->
     run_multiformat validate is_valid viols llm enableRepairLoop
       = Thrown (js "Ошибка генерации: " ++ e) /\
     run_email validate is_valid viols llm enableRepairLoop
       = Thrown (js "Initial generation failed: " ++ e)) /\
  (forall d, llm 1%nat Initial = Draft d ->
     (forall m, run_multiformat validate is_valid viols llm enableRepairLoop <> Thrown m) /\
     (forall m, run_email validate is_valid viols llm enableRepairLoop <> Thrown m)) /\
  (forall n a s e, llm a (Repair (lastDraft s) (viols (lastValidation s))) = Failure e ->
     mf_loop validate is_valid viols llm (S n) a s = mf_loop validate is_valid viols llm n (S a) s /\
     email_loop validate is_valid viols llm (S n) a s
       = email_loop validate is_valid viols llm n (S a) s).
Proof.
  split; [|split].
  - intros e He; unfold run_multiformat, run_email, run_email_max; rewrite He; split; reflexivity.
  - intros d Hd; unfold run_multiformat, run_email, run_email_max; rewrite Hd.
    split; intros m.
    + destruct (is_valid (validate d) || negb enableRepairLoop); [discriminate|].
      destruct (mf_loop _ _ _ _ _ _ _); discriminate.
    + destruct (is_valid (validate d)); [discriminate|].
      destruct (email_loop _ _ _ _ _ _ _); discriminate.
  - intros n a s e He; simpl; rewrite He; split; reflexivity.
Qed.

Lemma attempt_failures_witness :
  generateMultiformat llm_first_fails true = Thrown (js "Ошибка генерации: timeout") /\
  generateEmail Email.default_counts llm_first_fails true
    = Thrown (js "Initial generation failed: timeout") /\
  (forall m, generateMultiformat llm_second_fails true <> Thrown m).
Proof.
  split; [|split].
  - apply (proj1 (attempt_failures Multiformat.validateMultiformat Multiformat.isValid
                    Multiformat.mf_violations llm_first_fails true) (js "timeout")).
    reflexivity.
  - apply (proj1 (attempt_failures (fun d => Email.validateEmail d (Some Email.default_counts))
                    Email.valid Email.e_violations llm_first_fails true) (js "timeout")).
    reflexivity.
  - apply (proj1 (proj1 (proj2 (attempt_failures Multiformat.validateMultiformat
                    Multiformat.isValid Multiformat.mf_violations llm_second_fails true)) []
                    eq_refl)).
Defined.

End OrchestratorClaims.

Module SurgicalRepairFacts.
Import Surgical SurgicalRepair.

Lemma extract_lines_skip pattern pre rest :
  Forall (no_header pattern) pre ->
  extract_lines pattern (pre ++ rest) = extract_lines pattern rest.
Proof.
  intros H; induction H as [|l pre Hl _ IH]; simpl; auto.
  unfold no_header in Hl; rewrite Hl; exact IH.
Qed.

Lemma collect_section_span mid post :
  Forall not_new_section mid ->
  (post = [] \/ exists next rest,
     post = next :: rest /\ test true isNewSection (trim next) = true) ->
  collect_section (mid ++ post) = map trim mid.
Proof.
  intros H Hpost; induction H as [|l mid Hl _ IH]; simpl.
  - destruct Hpost as [->|(next & rest & -> & Hn)]; simpl; [reflexivity|].
    rewrite Hn; reflexivity.
  - unfold not_new_section in Hl; rewrite Hl, IH; reflexivity.
Qed.

Lemma extractField_span output fieldName pattern pre header mid post :
  sectionPattern fieldName = Some pattern ->
  split_lines output = pre ++ header :: mid ++ post ->
  Forall (no_header pattern) pre ->
  test true pattern (trim header) = true ->
  Forall not_new_section mid ->
  (post = [] \/ exists next rest,
     post = next :: rest /\ test true isNewSection (trim next) = true) ->
  extractField output fieldName = Some (Some (trim (join_lines (map trim (header :: mid))))).
Proof.
  intros Hp Hs Hpre Hh Hmid Hpost.
  unfold extractField, sectionPatterns_get; rewrite Hp, Hs, extract_lines_skip by exact Hpre.
  simpl; rewrite Hh, collect_section_span by assumption; reflexivity.
Qed.

Lemma extract_lines_none pattern lines :
  Forall (no_header pattern) lines -> extract_lines pattern lines = [].
Proof.
  intros H; rewrite <- (app_nil_r lines), extract_lines_skip by exact H; reflexivity.
Qed.


Lemma space_prefix_nil s :
  Forall (fun u => is_space u = true) s -> drop_spaces s = [].
Proof. induction 1 as [|u s Hu _ IH]; simpl; [reflexivity|]. rewrite Hu; exact IH. Qed.

Lemma drop_spaces_head s u r : drop_spaces s = u :: r -> is_space u = false.
Proof.
  induction s as [|x s IH]; simpl; [discriminate|].
  destruct (is_space x) eqn:E; [exact IH|]. intros H; injection H as -> _; exact E.
Qed.

Lemma drop_spaces_nil s : drop_spaces s = [] -> Forall (fun u => is_space u = true) s.
Proof.
  induction s as [|x s IH]; simpl; [constructor|].
  destruct (is_space x) eqn:E; [intros H; constructor; auto|discriminate].
Qed.

Lemma Forall_rev_iff {A} (P : A -> Prop) l : Forall P (rev l) -> Forall P l.
Proof.
  intros H; apply Forall_forall; intros x Hx.
  rewrite Forall_forall in H; apply H, in_rev; rewrite rev_involutive; exact Hx.
Qed.

(** Only white space trims to the empty string. *)
Lemma trim_nil s : trim s = [] -> Forall (fun u => is_space u = true) s.
Proof.
  unfold trim; intros H.
  destruct (drop_spaces (rev (drop_spaces s))) as [|u r] eqn:E.
  - apply drop_spaces_nil, Forall_rev_iff in E.
    destruct (drop_spaces s) as [|u r] eqn:E'; [apply drop_spaces_nil; exact E'|].
    inversion E; subst. apply drop_spaces_head in E'. congruence.
  - simpl in H. destruct (rev r); discriminate.
Qed.

Lemma trim_not_all_space s : trim s <> [] -> ~ Forall (fun u => is_space u = true) (trim s).
Proof.
  unfold trim; intros Hne Hsp.
  apply Forall_rev_iff in Hsp.
  destruct (drop_spaces (rev (drop_spaces s))) as [|u r] eqn:E; [apply Hne; reflexivity|].
  inversion Hsp; subst. apply drop_spaces_head in E. congruence.
Qed.

(** Trimming a text that starts with a non-empty trimmed line leaves it non-empty. *)
Lemma trim_app_nonempty x r : trim x <> [] -> trim (trim x ++ r) <> [].
Proof.
  intros Hx H. apply trim_nil in H. apply Forall_app in H as [H _].
  exact (trim_not_all_space x Hx H).
Qed.

Lemma join_cons_prefix (sep x : jstr) xs : exists r, join sep (x :: xs) = x ++ r.
Proof. destruct xs; simpl; [exists []; rewrite app_nil_r|eexists]; reflexivity. Qed.

Ltac field_cases H :=
  unfold sectionPattern in H;
  repeat match type of H with
  | context [if jstr_eqb ?f ?c then _ else _] =>
      let E := fresh "E" in
      destruct (jstr_eqb f c) eqn:E; [apply jstr_eqb_true in E; subst f|]
  end.

(** The header patterns of the six fields match no empty line. *)
Lemma pattern_nonempty f pattern :
  sectionPattern f = Some pattern -> test true pattern [] = false.
Proof. intros H; field_cases H; try discriminate; injection H as <-; vm_compute; reflexivity. Qed.

Lemma pattern_valid_location f pattern :
  sectionPattern f = Some pattern -> Email.mem f validLocations = true.
Proof. intros H; field_cases H; try discriminate; vm_compute; reflexivity. Qed.

Lemma valid_location_pattern f :
  Email.mem f validLocations = true -> exists pattern, sectionPattern f = Some pattern.
Proof.
  intros H; cbn [validLocations map Email.mem] in H.
  repeat (apply orb_true_iff in H; destruct H as [H|H]);
    try (apply jstr_eqb_true in H; subst f; eexists; reflexivity).
  discriminate.
Qed.

Lemma scope_local v :
  requiresFullContext (determineRepairScope v) = false ->
  determineRepairScope v = mkScope (location v) false /\
  Email.mem (code v) fullContextCodes = false /\ Email.mem (location v) validLocations = true.
Proof.
  unfold determineRepairScope.
  destruct (Email.mem (code v) fullContextCodes); [discriminate|].
  destruct (Email.mem (location v) validLocations); [auto|discriminate].
Qed.

Lemma extractField_own output f pattern :
  sectionPattern f = Some pattern -> extractField output f <> None.
Proof.
  intros H; unfold extractField, sectionPatterns_get; rewrite H.
  destruct (extract_lines pattern (split_lines output)); discriminate.
Qed.

Lemma replaceField_own output f c pattern :
  sectionPattern f = Some pattern -> replaceField output f c <> None.
Proof.
  intros H; unfold replaceField, sectionPatterns_get; rewrite H.
  destruct (find_bounds pattern (split_lines output) 0 false (-1)) as [a b].
  destruct (a =? -1); discriminate.
Qed.

Lemma replaceField_span output f newContent pattern pre header mid post :
  sectionPattern f = Some pattern ->
  split_lines output = pre ++ header :: mid ++ post ->
  Forall (no_header pattern) pre ->
  test true pattern (trim header) = true ->
  Forall not_new_section mid ->
  (post = [] \/ exists next rest,
     post = next :: rest /\ test true isNewSection (trim next) = true) ->
  replaceField output f newContent = Some (join_lines (pre ++ [newContent; []] ++ post)).
Proof.
  intros Hp Hs Hpre Hh Hmid Hpost.
  unfold replaceField, sectionPatterns_get; rewrite Hp.
  rewrite Hs, ReplaceFieldFacts.find_bounds_skip by exact Hpre.
  rewrite ReplaceFieldFacts.find_bounds_hit by exact Hh.
  rewrite ReplaceFieldFacts.find_bounds_span by exact Hmid.
  assert ((Z.of_nat (0 + List.length pre) =? -1) = false) as Hne by (apply Z.eqb_neq; lia).
  destruct Hpost as [->|(next & rest & -> & Hnext)].
  - cbn [find_bounds]; cbn beta iota.
    rewrite Hne, Nat2Z.id, Nat.add_0_l, ReplaceFieldFacts.firstn_prefix.
    rewrite Z.eqb_refl, skipn_all. reflexivity.
  - rewrite ReplaceFieldFacts.find_bounds_next by exact Hnext; cbn beta iota.
    assert ((Z.of_nat (S (0 + List.length pre) + List.length mid) =? -1) = false) as Hne'
      by (apply Z.eqb_neq; lia).
    rewrite Hne, Hne', !Nat2Z.id, Nat.add_0_l, ReplaceFieldFacts.firstn_prefix.
    replace (S (List.length pre) + List.length mid)%nat
      with (List.length pre + S (List.length mid))%nat by lia.
    rewrite ReplaceFieldFacts.skipn_span. reflexivity.
Qed.

Lemma substring_prefix s n : 0 <= n -> substring s 0 n = firstn (Z.to_nat n) s.
Proof.
  intros Hn; unfold substring, clamp; cbv zeta.
  replace (Z.max 0 (Z.min 0 (Z.of_nat (List.length s)))) with 0 by lia.
  replace (Z.to_nat (Z.max 0 (Z.min n (Z.of_nat (List.length s)))))
    with (Nat.min (Z.to_nat n) (List.length s)) by lia.
  cbn [Z.to_nat]; rewrite Nat.min_0_l, Nat.max_0_l, Nat.sub_0_r; cbn [skipn].
  destruct (Nat.le_ge_cases (Z.to_nat n) (List.length s)) as [Hle|Hle].
  - rewrite Nat.min_l by exact Hle; reflexivity.
  - rewrite Nat.min_r by exact Hle. rewrite firstn_all, firstn_all2 by exact Hle; reflexivity.
Qed.

End SurgicalRepairFacts.

Module SurgicalRepairExtras.
Import Surgical SurgicalRepair SurgicalRepairFacts.

(** extractField: an inherited member of [Object.prototype] as field name
    throws; another unknown name, or a draft without the field's header
    line, gives [null]; otherwise the result is the header line and the
    following lines up to the next section header (or the end of the
    draft), each trimmed, joined with newlines and trimmed. *)
Theorem extractField_spec (output fieldName : jstr) :
  (Email.mem fieldName prototypeMembers = true -> extractField output fieldName = None) /\
  (Email.mem fieldName prototypeMembers = false -> sectionPattern fieldName = None ->
     extractField output fieldName = Some None) /\
  (forall pattern, sectionPattern fieldName = Some pattern ->
     (Forall (no_header pattern) (split_lines output) ->
        extractField output fieldName = Some None) /\
     (forall pre header mid post,
        split_lines output = pre ++ header :: mid ++ post ->
        Forall (no_header pattern) pre ->
        test true pattern (trim header) = true ->
        Forall not_new_section mid ->
        (post = [] \/ exists next rest,
           post = next :: rest /\ test true isNewSection (trim next) = true) ->
        extractField output fieldName = Some (Some (trim (join_lines (map trim (header :: mid))))))).
Proof.
  split; [|split].
  - intros H; cbn [prototypeMembers map Email.mem] in H.
    repeat (apply orb_true_iff in H; destruct H as [H|H]);
      try (apply jstr_eqb_true in H; subst fieldName; vm_compute; reflexivity).
    discriminate.
  - intros Hproto Hp; unfold extractField, sectionPatterns_get; rewrite Hp, Hproto; reflexivity.
  - intros pattern Hp; split.
    + intros Hn; unfold extractField, sectionPatterns_get; rewrite Hp, extract_lines_none by exact Hn.
      reflexivity.
    + intros pre header mid post Hs Hpre Hh Hmid Hpost.
      exact (extractField_span output fieldName pattern pre header mid post Hp Hs Hpre Hh Hmid Hpost).
Qed.

Lemma extractField_spec_witness :
  extractField Scenarios.surgical_draft (js "toString") = None /\
  extractField Scenarios.surgical_draft (js "title") = Some None /\
  extractField Scenarios.surgical_draft (js "cta") = Some None /\
  extractField Scenarios.surgical_draft (js "subject")
  = Some (Some (trim (join_lines (map trim [js "ТЕМА — 3 варианта"; js "1. Старый"])))).
Proof.
  pose proof (extractField_spec Scenarios.surgical_draft (js "toString")) as [H1 _].
  pose proof (extractField_spec Scenarios.surgical_draft (js "title")) as [_ [H2 _]].
  pose proof (extractField_spec Scenarios.surgical_draft (js "cta")) as [_ [_ H3]].
  pose proof (extractField_spec Scenarios.surgical_draft (js "subject")) as [_ [_ H4]].
  split; [apply H1; vm_compute; reflexivity|].
  split; [apply H2; vm_compute; reflexivity|].
  split; [apply (proj1 (H3 (word "CTA") eq_refl)); repeat constructor; vm_compute; reflexivity|].
  refine (proj2 (H4 _ eq_refl) [] (js "ТЕМА — 3 варианта") [js "1. Старый"]
            [js "ПРЕХЕДЕР — 3 варианта"; js "1. Текст"] _ _ _ _ _).
  - vm_compute; reflexivity.
  - constructor.
  - vm_compute; reflexivity.
  - constructor; [vm_compute; reflexivity | constructor].
  - right; exists (js "ПРЕХЕДЕР — 3 варианта"), [js "1. Текст"]; split; vm_compute; reflexivity.
Defined.

(** surgicalRepair resolves to [null] without calling the LLM when the
    violation's code is a cross-field one, when its location is not one of
    the six repairable fields, or when the draft has no header line for
    that field. *)
Theorem surgicalRepair_declines (v : violation) (currentOutput parsedBrief : jstr) :
  Email.mem (code v) fullContextCodes = true \/
  Email.mem (location v) validLocations = false \/
  (exists pattern, sectionPattern (location v) = Some pattern /\
                   Forall (no_header pattern) (split_lines currentOutput)) ->
  forall callLLM, surgicalRepair v currentOutput parsedBrief callLLM = Resolved None.
Proof.
  intros H callLLM; unfold surgicalRepair.
  destruct (requiresFullContext (determineRepairScope v)) eqn:Hf; [reflexivity|].
  destruct (scope_local v Hf) as (Hs & Hc & Hl). rewrite Hs; cbn [field].
  destruct H as [H|[H|(pattern & Hp & Hn)]]; [congruence|congruence|].
  unfold extractField, sectionPatterns_get; rewrite Hp, extract_lines_none by exact Hn.
  reflexivity.
Qed.

Lemma surgicalRepair_declines_witness :
  (Email.mem (js "TRIGRAM_DUPLICATION") fullContextCodes = true \/
   Email.mem (js "subject") validLocations = false \/
   (exists pattern, sectionPattern (js "subject") = Some pattern /\
                    Forall (no_header pattern) (split_lines Scenarios.surgical_draft))) /\
  surgicalRepair (mkViolation (js "TRIGRAM_DUPLICATION") ERROR [] (js "subject") [] None)
    Scenarios.surgical_draft [] (fun _ => Orchestrator.Draft []) = Resolved None.
Proof.
  split; [left; vm_compute; reflexivity|].
  apply (surgicalRepair_declines (mkViolation (js "TRIGRAM_DUPLICATION") ERROR [] (js "subject") [] None)).
  left; vm_compute; reflexivity.
Defined.

(** surgicalRepair never rejects on its own: a rejection is always the
    failure of the LLM call, on some prompt. *)
Theorem surgicalRepair_rejects_only_on_llm_failure (v : violation)
    (currentOutput parsedBrief : jstr) (callLLM : jstr -> Orchestrator.outcome) (e : jstr) :
  surgicalRepair v currentOutput parsedBrief callLLM = Rejected e ->
  exists prompt, callLLM prompt = Orchestrator.Failure e.
Proof.
  unfold surgicalRepair.
  destruct (requiresFullContext (determineRepairScope v)) eqn:Hf; [discriminate|].
  destruct (scope_local v Hf) as (Hs & _ & Hl). rewrite Hs; cbn [field].
  destruct (valid_location_pattern _ Hl) as [pattern Hp].
  destruct (extractField currentOutput (location v)) as [[[|u c]|]|] eqn:Ex;
    try discriminate; [|exact (False_ind _ (extractField_own _ _ _ Hp Ex))].
  destruct (callLLM _) as [r|msg] eqn:Hc.
  - destruct (replaceField currentOutput (location v) r) eqn:Hr; [discriminate|].
    exact (False_ind _ (replaceField_own _ _ _ _ Hp Hr)).
  - intros H; injection H as <-; eexists; exact Hc.
Qed.

Lemma surgicalRepair_rejects_only_on_llm_failure_witness :
  surgicalRepair (mkViolation (js "CHAR_LIMIT_EXCEEDED") ERROR [] (js "subject") [] None)
    Scenarios.surgical_draft [] (fun _ => Orchestrator.Failure (js "timeout"))
  = Rejected (js "timeout") /\
  exists prompt, (fun _ : jstr => Orchestrator.Failure (js "timeout")) prompt
                 = Orchestrator.Failure (js "timeout").
Proof.
  assert (H : surgicalRepair (mkViolation (js "CHAR_LIMIT_EXCEEDED") ERROR [] (js "subject") [] None)
    Scenarios.surgical_draft [] (fun _ => Orchestrator.Failure (js "timeout"))
    = Rejected (js "timeout")) by (vm_compute; reflexivity).
  split; [exact H|].
  exact (surgicalRepair_rejects_only_on_llm_failure _ _ _ _ _ H).
Defined.

(** surgicalRepair on a violation of one field: the LLM is called once,
    with the repair prompt built on the field's extracted content; its
    answer replaces the field's span (the header line up to the next
    section header), the rest of the draft is kept as it is, and a failed
    call rejects with the LLM's error. *)
Theorem surgicalRepair_local (v : violation) (currentOutput parsedBrief : jstr)
    (callLLM : jstr -> Orchestrator.outcome) pattern pre header mid post :
  Email.mem (code v) fullContextCodes = false ->
  sectionPattern (location v) = Some pattern ->
  split_lines currentOutput = pre ++ header :: mid ++ post ->
  Forall (no_header pattern) pre ->
  test true pattern (trim header) = true ->
  Forall not_new_section mid ->
  (post = [] \/ exists next rest,
     post = next :: rest /\ test true isNewSection (trim next) = true) ->
  surgicalRepair v currentOutput parsedBrief callLLM =
  match callLLM (buildSurgicalRepairPrompt (location v)
                   (trim (join_lines (map trim (header :: mid)))) v parsedBrief) with
  | Orchestrator.Failure e => Rejected e
  | Orchestrator.Draft repaired => Resolved (Some (join_lines (pre ++ [repaired; []] ++ post)))
  end.
Proof.
  intros Hc Hp Hs Hpre Hh Hmid Hpost.
  assert (Hl := pattern_valid_location _ _ Hp).
  unfold surgicalRepair, determineRepairScope; rewrite Hc, Hl; cbn [requiresFullContext field].
  rewrite (extractField_span currentOutput (location v) pattern pre header mid post)
    by assumption.
  assert (Hne : trim (join_lines (map trim (header :: mid))) <> []).
  { destruct (join_cons_prefix newline (trim header) (map trim mid)) as [r Hr].
    unfold join_lines; cbn [map]; rewrite Hr.
    apply trim_app_nonempty; intros E. rewrite E, (pattern_nonempty _ _ Hp) in Hh.
    discriminate. }
  destruct (trim (join_lines (map trim (header :: mid)))) as [|u c] eqn:Ec; [congruence|].
  destruct (callLLM _) as [r|e]; [|reflexivity].
  rewrite (replaceField_span currentOutput (location v) r pattern pre header mid post)
    by assumption.
  reflexivity.
Qed.

Lemma surgicalRepair_local_witness :
  surgicalRepair (mkViolation (js "CHAR_LIMIT_EXCEEDED") ERROR [] (js "subject") [] None)
    Scenarios.surgical_draft [] (fun _ => Orchestrator.Draft Scenarios.surgical_subject)
  = Resolved (Some (join_lines ([] ++ [Scenarios.surgical_subject; []]
                                ++ [js "ПРЕХЕДЕР — 3 варианта"; js "1. Текст"]))).
Proof.
  refine (surgicalRepair_local (mkViolation (js "CHAR_LIMIT_EXCEEDED") ERROR [] (js "subject") [] None)
            Scenarios.surgical_draft [] (fun _ => Orchestrator.Draft Scenarios.surgical_subject)
            (Seq (word "ТЕМА") variants_tail) [] (js "ТЕМА — 3 варианта") [js "1. Старый"]
            [js "ПРЕХЕДЕР — 3 варианта"; js "1. Текст"] _ _ _ _ _ _ _).
  - vm_compute; reflexivity.
  - vm_compute; reflexivity.
  - vm_compute; reflexivity.
  - constructor.
  - vm_compute; reflexivity.
  - constructor; [vm_compute; reflexivity | constructor].
  - right; exists (js "ПРЕХЕДЕР — 3 варианта"), [js "1. Текст"]; split; vm_compute; reflexivity.
Defined.

(** buildSurgicalRepairPrompt reads at most the first 500 code units of
    the brief: the prompt for a brief is the prompt for its first 500
    units. *)
Theorem buildSurgicalRepairPrompt_brief_prefix (fieldName currentContent : jstr) (v : violation)
    (parsedBrief : jstr) :
  buildSurgicalRepairPrompt fieldName currentContent v parsedBrief
  = buildSurgicalRepairPrompt fieldName currentContent v (firstn 500 parsedBrief).
Proof.
  unfold buildSurgicalRepairPrompt.
  rewrite !substring_prefix by lia. rewrite firstn_firstn, Nat.min_id. reflexivity.
Qed.

End SurgicalRepairExtras.

Module EmailExtraFacts.
Import Email.

Lemma Forall_flat_map_intro {A B} (P : B -> Prop) (f : A -> list B) (l : list A) :
  (forall x, In x l -> Forall P (f x)) -> Forall P (flat_map f l).
Proof.
  intros H; induction l as [|x l IH]; simpl; [constructor|].
  apply Forall_app; split; [apply H; left; reflexivity|apply IH; intros y Hy; apply H; right; exact Hy].
Qed.

Ltac fa_tac leaf :=
  repeat (cbv beta zeta; match goal with
  | |- Forall _ (_ ++ _) => apply Forall_app; split
  | |- Forall _ (flat_map _ _) => apply Forall_flat_map_intro; intros ? _
  | |- Forall _ [] => constructor
  | |- Forall _ (_ :: _) => constructor; [leaf|]
  | |- Forall _ (match ?e with _ => _ end) => destruct e
  | |- Forall _ (if ?b then _ else _) => destruct b
  end).

Ltac text_leaf := hnf; split; [reflexivity|split; [reflexivity|vm_compute; reflexivity]].

Lemma checkCharLimit_at t n l : Forall (text_violation_at l) (checkCharLimit t n l).
Proof. unfold checkCharLimit; fa_tac text_leaf. Qed.

Lemma checkEmojis_at t l : Forall (text_violation_at l) (checkEmojis t l).
Proof. unfold checkEmojis; fa_tac text_leaf. Qed.

Lemma checkForbiddenWords_at t l : Forall (text_violation_at l) (checkForbiddenWords t l).
Proof. unfold checkForbiddenWords; fa_tac text_leaf. Qed.

Lemma checkBannedCliches_at t l : Forall (text_violation_at l) (checkBannedCliches t l).
Proof. unfold checkBannedCliches; fa_tac text_leaf. Qed.

Lemma checkGeographyLabels_at t l : Forall (text_violation_at l) (checkGeographyLabels t l).
Proof. unfold checkGeographyLabels; fa_tac text_leaf. Qed.

Lemma per_text_at (checks : list (jstr -> jstr -> list violation)) loc texts :
  (forall chk, In chk checks -> forall t, Forall (text_violation_at loc) (chk t loc)) ->
  Forall (text_violation_at loc) (per_text checks loc texts).
Proof.
  intros H; unfold per_text; apply Forall_flat_map_intro; intros t _.
  apply Forall_flat_map_intro; intros chk Hin; exact (H chk Hin t).
Qed.

Ltac per_text_tac :=
  apply per_text_at; intros chk Hin t; cbn [In] in Hin;
  repeat (destruct Hin as [<-|Hin];
          [cbv beta; first [ apply checkCharLimit_at | apply checkEmojis_at
                           | apply checkForbiddenWords_at | apply checkBannedCliches_at
                           | apply checkGeographyLabels_at ]|]);
  contradiction.

Lemma Forall_mem {A} (P : A -> Prop) l x : Forall P l -> In x l -> P x.
Proof. intros H; rewrite Forall_forall in H; apply H. Qed.



Lemma mem_In x l : mem x l = true <-> In x l.
Proof.
  induction l as [|y l IH]; simpl; [split; [discriminate|contradiction]|].
  rewrite orb_true_iff, IH; split.
  - intros [H|H]; [left; symmetry; apply jstr_eqb_true; exact H|right; exact H].
  - intros [<-|H]; [left; apply OrchestratorClaims.jstr_eqb_refl|right; exact H].
Qed.

Lemma pairs_check_Q (Q : violation -> Prop) :
  (forall v, code v = js "TRIGRAM_DUPLICATION" -> Q v) ->
  forall parts, Forall Q (pairs_check parts).
Proof.
  intros HT parts; induction parts as [|a parts IH]; simpl; [constructor|].
  apply Forall_app; split; [|exact IH].
  apply Forall_flat_map_intro; intros b _; unfold trigram_pair.
  fa_tac ltac:(apply HT; reflexivity).
Qed.

Lemma blocks_check_Q (Q : violation -> Prop) :
  (forall v i, code v = js "BLOCK_TOO_LONG" -> location v = js "blocks[" ++ of_nat i ++ js "]" ->
     Q v) ->
  forall i bs, Forall Q (blocks_check i bs).
Proof.
  intros HB i bs; revert i; induction bs as [|b bs IH]; intros i; simpl; [constructor|].
  apply Forall_app; split; [|apply IH].
  unfold block_check; fa_tac ltac:(eapply HB; reflexivity).
Qed.

(** The checks of [structure_checks] after the three variant counts. *)
Lemma structure_rest_Q (Q : violation -> Prop) output st :
  (forall l v, text_violation_at l v ->
     In l (map js ["subject"; "preheader"; "bannerTitle"; "bannerSubtitle"; "intro"; "introCTA"]%string) ->
     Q v) ->
  (forall v, code v = js "TRIGRAM_DUPLICATION" -> Q v) ->
  (forall v, code v = js "EXACT_EQUALITY" ->
     location v = js "subject == bannerTitle" \/ location v = js "preheader == bannerSubtitle" -> Q v) ->
  (forall v i, code v = js "BLOCK_TOO_LONG" -> location v = js "blocks[" ++ of_nat i ++ js "]" ->
     Q v) ->
  (forall v, code v = js "SERVICE_PHRASE_DETECTED" -> location v = js "output" -> Q v) ->
  Forall Q (
    per_text [fun t l => checkCharLimit t 30 l; checkEmojis; checkForbiddenWords;
              checkBannedCliches; checkGeographyLabels] (js "subject") (subject st)
    ++ per_text [fun t l => checkCharLimit t 75 l; checkEmojis; checkForbiddenWords;
                 checkBannedCliches; checkGeographyLabels] (js "preheader") (preheader st)
    ++ per_text [checkEmojis; checkForbiddenWords; checkBannedCliches; checkGeographyLabels]
         (js "bannerTitle") (bannerTitle st)
    ++ per_text [checkEmojis; checkForbiddenWords; checkBannedCliches; checkGeographyLabels]
         (js "bannerSubtitle") (bannerSubtitle st)
    ++ checkForbiddenWords (introText st) (js "intro")
    ++ checkBannedCliches (introText st) (js "intro")
    ++ checkGeographyLabels (introText st) (js "intro")
    ++ per_text [checkForbiddenWords] (js "introCTA") (introCTA st)
    ++ pairs_check (keyParts st)
    ++ equality_check (subject st) (bannerTitle st)
         (js "Тема не должна точно совпадать с заголовком баннера") (js "subject == bannerTitle")
    ++ equality_check (preheader st) (bannerSubtitle st)
         (js "Прехедер не должен точно совпадать с подзаголовком баннера")
         (js "preheader == bannerSubtitle")
    ++ blocks_check 0 (blocks st)
    ++ flat_map (service_check output) servicePatterns).
Proof.
  intros HX HT HE HB HS.
  assert (HL : forall l vs, In l (map js ["subject"; "preheader"; "bannerTitle"; "bannerSubtitle";
                                          "intro"; "introCTA"]%string) ->
                 Forall (text_violation_at l) vs -> Forall Q vs).
  { intros l vs Hl H; eapply Forall_impl; [|exact H]; intros v Hv; exact (HX l v Hv Hl). }
  rewrite !Forall_app; repeat split.
  1-4: match goal with |- Forall _ (per_text _ ?l _) =>
         apply (HL l _ ltac:(cbn [map In]; tauto)); per_text_tac end.
  1-3: apply (HL (js "intro") _ ltac:(cbn [map In]; tauto));
       first [apply checkForbiddenWords_at | apply checkBannedCliches_at | apply checkGeographyLabels_at].
  - apply (HL (js "introCTA") _ ltac:(cbn [map In]; tauto)). per_text_tac.
  - exact (pairs_check_Q Q HT _).
  - unfold equality_check; fa_tac ltac:(apply HE; [reflexivity|left; reflexivity]).
  - unfold equality_check; fa_tac ltac:(apply HE; [reflexivity|right; reflexivity]).
  - exact (blocks_check_Q Q HB 0 _).
  - unfold service_check; fa_tac ltac:(apply HS; reflexivity).
Qed.

(** The catalogue of [validateEmail]: where each kind of violation is
    reported. *)
Lemma validateEmail_Q (Q : violation -> Prop) output spec_counts :
  (forall l v, text_violation_at l v ->
     In l (map js ["subject"; "preheader"; "bannerTitle"; "bannerSubtitle"; "intro"; "introCTA"]%string) ->
     Q v) ->
  (forall v, code v = js "VARIANT_COUNT_INSUFFICIENT" ->
     In (location v) (map js ["subject"; "preheader"; "bannerTitle"]%string) -> Q v) ->
  (forall v, code v = js "TRIGRAM_DUPLICATION" -> Q v) ->
  (forall v, code v = js "EXACT_EQUALITY" ->
     location v = js "subject == bannerTitle" \/ location v = js "preheader == bannerSubtitle" -> Q v) ->
  (forall v i, code v = js "BLOCK_TOO_LONG" -> location v = js "blocks[" ++ of_nat i ++ js "]" ->
     Q v) ->
  (forall v, code v = js "SERVICE_PHRASE_DETECTED" -> location v = js "output" -> Q v) ->
  (forall v, code v = js "PARSE_FAILED" -> location v = js "output" -> Q v) ->
  Forall Q (e_violations (validateEmail output spec_counts)).
Proof.
  intros HX HV HT HE HB HS HP.
  unfold validateEmail; destruct (parseEmailOutput output) as [st|]; cbn [e_violations].
  - unfold structure_checks; rewrite !Forall_app; split; [|split; [|split]].
    1-3: unfold variant_count_check; fa_tac ltac:(apply HV; [reflexivity|cbn [map In]; tauto]).
    rewrite <- !Forall_app; apply structure_rest_Q; assumption.
  - constructor; [apply HP; reflexivity|constructor].
Qed.

End EmailExtraFacts.

Module EmailExtras.
Import Email EmailExtraFacts Surgical.

(** The five per-text checks of the email validator (checkCharLimit,
    checkEmojis, checkForbiddenWords, checkBannedCliches,
    checkGeographyLabels) report nothing on an empty text; every violation
    they report is an ERROR at the location they are given, with one of
    their nine codes. *)
Theorem text_checks_at_location (text location : jstr) (limit : nat) :
  Forall (text_violation_at location)
    (checkCharLimit text limit location ++ checkEmojis text location
     ++ checkForbiddenWords text location ++ checkBannedCliches text location
     ++ checkGeographyLabels text location) /\
  checkCharLimit [] limit location ++ checkEmojis [] location
  ++ checkForbiddenWords [] location ++ checkBannedCliches [] location
  ++ checkGeographyLabels [] location = [].
Proof.
  split; [|reflexivity].
  rewrite !Forall_app; repeat split.
  - apply checkCharLimit_at.
  - apply checkEmojis_at.
  - apply checkForbiddenWords_at.
  - apply checkBannedCliches_at.
  - apply checkGeographyLabels_at.
Qed.

(** Surgical repair of a violation reported by validateEmail can only
    target the subject, the preheader, the banner title or the banner
    subtitle: every other violation (intro, introCTA, blocks, the whole
    output, cross-field codes) needs full regeneration, and validateEmail
    never reports at the [body] or [cta] locations that surgical repair
    also knows. *)
Theorem validateEmail_surgical_targets (output : jstr) (spec_counts : option variantCounts)
    (v : violation) :
  In v (e_violations (validateEmail output spec_counts)) ->
  requiresFullContext (determineRepairScope v) = false ->
  In (location v) (map js ["subject"; "preheader"; "bannerTitle"; "bannerSubtitle"]%string).
Proof.
  intros Hin.
  apply (Forall_mem (fun v => requiresFullContext (determineRepairScope v) = false ->
           In (location v) (map js ["subject"; "preheader"; "bannerTitle"; "bannerSubtitle"]%string))
           (e_violations (validateEmail output spec_counts)) v); [|exact Hin].
  clear v Hin; apply validateEmail_Q.
  - intros l v (_ & Hl & _) Hin Hr; rewrite Hl; cbn [map In] in Hin |- *.
    unfold determineRepairScope in Hr; rewrite Hl in Hr.
    destruct (mem (code v) fullContextCodes); [discriminate|].
    destruct Hin as [<-|[<-|[<-|[<-|[<-|[<-|[]]]]]]]; try tauto; vm_compute in Hr; discriminate.
  - intros v Hc Hin _; cbn [map In] in Hin |- *; tauto.
  - intros v Hc Hr; unfold determineRepairScope in Hr; rewrite Hc in Hr; vm_compute in Hr;
      discriminate.
  - intros v Hc _ Hr; unfold determineRepairScope in Hr; rewrite Hc in Hr; vm_compute in Hr;
      discriminate.
  - intros v i Hc Hl Hr; unfold determineRepairScope in Hr; rewrite Hc, Hl in Hr; vm_compute in Hr;
      discriminate.
  - intros v Hc Hl Hr; unfold determineRepairScope in Hr; rewrite Hc, Hl in Hr; vm_compute in Hr;
      discriminate.
  - intros v Hc Hl Hr; unfold determineRepairScope in Hr; rewrite Hc, Hl in Hr; vm_compute in Hr;
      discriminate.
Qed.

Lemma validateEmail_surgical_targets_witness :
  In (location (hd (parse_failed []) (e_violations (validateEmail Scenarios.trigram_draft None))))
     (map js ["subject"; "preheader"; "bannerTitle"; "bannerSubtitle"]%string).
Proof.
  apply (validateEmail_surgical_targets Scenarios.trigram_draft None).
  - vm_compute; left; reflexivity.
  - vm_compute; reflexivity.
Defined.



(** The trigram check of a pair of key parts reports a violation exactly
    when the two texts share a 3-gram, so the check is symmetric in the
    pair. *)
Theorem trigram_pair_iff (a b : jstr * jstr) :
  (trigram_pair a b <> [] <->
   exists g, In g (extract3Grams (snd a)) /\ In g (extract3Grams (snd b))) /\
  (trigram_pair a b = [] <-> trigram_pair b a = []).
Proof.
  assert (K : forall a b : jstr * jstr, trigram_pair a b <> [] <->
            exists g, In g (extract3Grams (snd a)) /\ In g (extract3Grams (snd b))).
  { intros x y; unfold trigram_pair; cbv zeta.
    destruct (filter (fun g => mem g (extract3Grams (snd y))) (extract3Grams (snd x))) as [|g l] eqn:E.
    - split; [intros H; exfalso; apply H; reflexivity|].
      intros (g & Hx & Hy). assert (Hin : In g (filter (fun g => mem g (extract3Grams (snd y)))
                                                 (extract3Grams (snd x)))).
      { apply filter_In; split; [exact Hx|apply mem_In; exact Hy]. }
      rewrite E in Hin; destruct Hin.
    - split; [intros _|intros _; discriminate].
      assert (Hin : In g (filter (fun g => mem g (extract3Grams (snd y))) (extract3Grams (snd x))))
        by (rewrite E; left; reflexivity).
      apply filter_In in Hin as [Hx Hy]; apply mem_In in Hy; eauto. }
  assert (S : forall a b : jstr * jstr, trigram_pair a b = [] -> trigram_pair b a = []).
  { intros x y H; destruct (trigram_pair y x) as [|w l] eqn:E; [reflexivity|exfalso].
    assert (Hne : trigram_pair y x <> []) by (rewrite E; discriminate).
    apply K in Hne as (g & H1 & H2).
    exact (proj2 (K x y) (ex_intro _ g (conj H2 H1)) H). }
  split; [apply K|split; apply S].
Qed.

Lemma trigram_pair_iff_witness :
  exists g, In g (extract3Grams (js "Раз два три")) /\ In g (extract3Grams (js "раз, два три!")).
Proof.
  apply (proj1 (proj1 (trigram_pair_iff (js "subject", js "Раз два три")
                                        (js "preheader", js "раз, два три!")))).
  vm_compute; discriminate.
Defined.

End EmailExtras.

Module MultiformatExtras.
Import Multiformat.

Lemma inv_w_err (v : violation) (s : mstate) :
  inv_w s -> severity_of v = ERROR -> inv_w (bump_errors (push v s)).
Proof.
  intros (H1 & H2 & H3) Hv; split; [apply MultiformatFacts.inv_err; assumption|].
  cbn [warnings m_violations bump_errors push]; split.
  - rewrite H2; unfold warning_count, is_warning; rewrite filter_app, length_app; cbn.
    rewrite Hv; cbn; lia.
  - apply Forall_app; split; [exact H3|constructor; [congruence|constructor]].
Qed.

Lemma inv_w_warn (v : violation) (s : mstate) :
  inv_w s -> severity_of v = WARNING -> inv_w (bump_warnings (push v s)).
Proof.
  intros (H1 & H2 & H3) Hv; split; [apply MultiformatFacts.inv_warn; assumption|].
  cbn [warnings m_violations bump_warnings push]; split.
  - rewrite H2; unfold warning_count, is_warning; rewrite filter_app, length_app; cbn.
    rewrite Hv; cbn; lia.
  - apply Forall_app; split; [exact H3|constructor; [congruence|constructor]].
Qed.

Lemma inv_w_checks (s : mstate) : inv_w s -> inv_w (bump_checks s).
Proof. intros (H1 & H2 & H3); split; [apply MultiformatFacts.inv_checks; exact H1|auto]. Qed.

Lemma inv_w_foreach {A} (f : mstate -> A -> nat -> mstate) (l : list A) :
  (forall s x i, inv_w s -> inv_w (f s x i)) -> forall i s, inv_w s -> inv_w (foreach_idx f l i s).
Proof. intros Hf; induction l as [|x l IH]; simpl; auto. Qed.

Lemma inv_w_fold {A} (f : mstate -> A -> mstate) (l : list A) :
  (forall s x, inv_w s -> inv_w (f s x)) -> forall s, inv_w s -> inv_w (fold_left f l s).
Proof. intros Hf; induction l as [|x l IH]; simpl; auto. Qed.

Ltac inv_w_tac :=
  repeat (cbv beta zeta; match goal with
  | |- inv_w (bump_errors (push _ _)) => apply inv_w_err; [|reflexivity]
  | |- inv_w (bump_warnings (push _ _)) => apply inv_w_warn; [|reflexivity]
  | |- inv_w (bump_checks _) => apply inv_w_checks
  | |- inv_w (foreach_idx _ _ _ _) => apply inv_w_foreach; [intros|]
  | |- inv_w (fold_left _ _ _) => apply inv_w_fold; [intros|]
  | |- inv_w (match ?e with _ => _ end) => destruct e
  | |- inv_w (if ?b then _ else _) => destruct b
  end); try assumption.

Lemma error_warning_count (vs : list violation) :
  Forall (fun v => severity_of v <> INFO) vs ->
  (error_count vs + warning_count vs)%nat = List.length vs.
Proof.
  unfold error_count, warning_count, is_error, is_warning.
  induction 1 as [|v vs Hv _ IH]; simpl; [reflexivity|].
  destruct (severity_of v); simpl; [lia|lia|congruence].
Qed.

(** validateMultiformat: [stats.warnings] is the number of WARNING
    violations, no violation is an INFO, and so [stats.errors] and
    [stats.warnings] add up to the number of violations. *)
Theorem validateMultiformat_warnings (content : jstr) :
  let r := validateMultiformat content in
  stats_warnings r = warning_count (mf_violations r) /\
  Forall (fun v => severity_of v <> INFO) (mf_violations r) /\
  (stats_errors r + stats_warnings r)%nat = List.length (mf_violations r).
Proof.
  unfold validateMultiformat; cbv zeta; cbn [mf_violations stats_checks stats_errors stats_warnings].
  set (ss := parseGeneratedContent content).
  assert (H0 : inv_w (mkM [] 0 0 0)) by (split; [reflexivity|split; [reflexivity|constructor]]).
  match goal with |- _ = warning_count (m_violations ?S) /\ _ => assert (H : inv_w S) end.
  - unfold checkMessageConsistency, checkCTARules, checkForbiddenNapitok, checkAbbreviations,
      checkStickyTimerFormat, sticky_timer_check, checkSMSAlcoholRestrictions, sms_alcohol_check,
      checkLengthLimits, push_section_check, sms_section_check, yandex_check, onboarding_check,
      lp_check, text_limit_check.
    inv_w_tac.
  - destruct H as (Hi & Hw & Hf); unfold inv in Hi.
    rewrite Hi, Hw; split; [reflexivity|split; [exact Hf|]].
    apply error_warning_count; exact Hf.
Qed.

(** parseGeneratedContent ignores every line read before the first section
    header: content none of whose lines contains a header yields empty
    arrays for all thirteen sections, variant lines included. *)
Theorem parseGeneratedContent_headerless (content : jstr) :
  Forall (fun line => find (fun h => test true (snd h) (trim line)) section_headers = None)
    (split_lines content) ->
  forall s, parseGeneratedContent content s = [].
Proof.
  intros Hl; unfold parseGeneratedContent.
  assert (H0 : forall ps, (forall s, p_sections ps s = []) -> p_sec ps = None ->
     (forall s, p_sections (fold_left parse_line (split_lines content) ps) s = []) /\
     p_sec (fold_left parse_line (split_lines content) ps) = None).
  { induction Hl as [|line ls Hline _ IH]; intros ps Hss Hsec; [auto|].
    cbn [fold_left]; apply IH; unfold parse_line; rewrite Hline, Hsec; cbn; auto. }
  apply H0; reflexivity.
Qed.

Lemma parseGeneratedContent_headerless_witness :
  parseGeneratedContent (join_lines [js "Вариант 1: Скидки"; js "Текст: Купите"]) push_announce = [].
Proof.
  apply parseGeneratedContent_headerless.
  repeat constructor; vm_compute; reflexivity.
Defined.

End MultiformatExtras.

Module OrchestratorExtras.
Import Orchestrator.

Lemma StronglySorted_snoc (l : list nat) (x : nat) :
  StronglySorted lt l -> Forall (fun y => y < x)%nat l -> StronglySorted lt (l ++ [x]).
Proof.
  induction 1 as [|y l Hl IH Hy]; intros Hx; simpl.
  - repeat constructor.
  - inversion Hx as [|? ? Hyx Hx']; subst. constructor; [apply IH; exact Hx'|].
    apply Forall_app; split; [exact Hy|constructor; [exact Hyx|constructor]].
Qed.

Section Loops.
Context {V : Type} (validate : jstr -> V) (is_valid : V -> bool) (viols : V -> list violation).
Variable llm : nat -> prompt -> outcome.

Lemma loop_inv_mono a b s : (a <= b)%nat -> loop_inv validate is_valid a s -> loop_inv validate is_valid b s.
Proof.
  intros Hab (H1 & H2 & H3 & H4); repeat split; auto.
  eapply Forall_impl; [|exact H3]; intros x (? & ? & ?); repeat split; auto; lia.
Qed.

Lemma loop_inv_init d :
  is_valid (validate d) = false ->
  loop_inv validate is_valid 2 (mkL d (validate d) [mkAttempt 1 d (validate d)]).
Proof.
  intros Hd; repeat split; cbn; auto; repeat constructor; auto.
Qed.

Lemma loop_inv_step a s d :
  loop_inv validate is_valid a s -> is_valid (validate d) = false ->
  loop_inv validate is_valid (S a) (mkL d (validate d) (history s ++ [mkAttempt a d (validate d)])).
Proof.
  intros (H1 & H2 & H3 & H4) Hd; repeat split; cbn; auto.
  - apply Forall_app; split; [|repeat constructor; auto].
    eapply Forall_impl; [|exact H3]; intros x (? & ? & ?); repeat split; auto.
  - rewrite map_app; apply StronglySorted_snoc; [exact H4|].
    apply Forall_map; eapply Forall_impl; [|exact H3]; intros x (? & ? & ?); auto.
Qed.

Lemma early_ok_step a s d :
  loop_inv validate is_valid a s -> is_valid (validate d) = true ->
  early_ok validate is_valid (S a) (history s)
    (mkResult true d [] a (history s ++ [mkAttempt a d (validate d)])).
Proof.
  intros (H1 & H2 & H3 & H4) Hd; unfold early_ok.
  cbn [success r_violations content attempts attemptHistory].
  split; [reflexivity|]. split; [reflexivity|]. split; [exact Hd|]. split; [lia|].
  split; [exists [mkAttempt a d (validate d)]; reflexivity|]. split.
  - rewrite map_app; apply StronglySorted_snoc; [exact H4|].
    apply Forall_map; eapply Forall_impl; [|exact H3]; intros x (? & ? & ?); auto.
  - apply Forall_app; split; [|repeat constructor; auto].
    eapply Forall_impl; [|exact H3]; intros x (? & ? & ?); split; auto.
Qed.

Lemma early_ok_mono hi hi' h0 h r :
  (hi <= hi')%nat -> (exists ext, h = h0 ++ ext) ->
  early_ok validate is_valid hi h r -> early_ok validate is_valid hi' h0 r.
Proof.
  intros Hle [e He] (H1 & H2 & H3 & H4 & (ext & H5) & H6 & H7).
  repeat split; auto; [lia| |].
  - exists (e ++ ext); rewrite H5, He, app_assoc; reflexivity.
  - eapply Forall_impl; [|exact H7]; intros x (? & ?); split; auto; lia.
Qed.

Lemma mf_loop_spec n a s :
  loop_inv validate is_valid a s ->
  match mf_loop validate is_valid viols llm n a s with
  | Early r => early_ok validate is_valid (a + n) (history s) r
  | Exhausted s' => loop_inv validate is_valid (a + n) s' /\
                    (exists ext, history s' = history s ++ ext) /\
                    (List.length (history s') <= List.length (history s) + n)%nat
  end.
Proof.
  revert a s; induction n as [|n IH]; intros a s Hs; cbn [mf_loop].
  - rewrite Nat.add_0_r; split; [exact Hs|split; [exists []; rewrite app_nil_r; reflexivity|lia]].
  - destruct (llm a _) as [d|e].
    + cbv zeta; destruct (is_valid (validate d)) eqn:Hd.
      * eapply early_ok_mono; [|exists []; rewrite app_nil_r; reflexivity|].
        2: apply early_ok_step; assumption. lia.
      * specialize (IH (S a) _ (loop_inv_step a s d Hs Hd)).
        destruct (mf_loop _ _ _ _ n (S a) _) as [r|s'].
        -- eapply early_ok_mono; [| |exact IH]; [lia|exists [mkAttempt a d (validate d)]; reflexivity].
        -- destruct IH as (I1 & (ext & I2) & I3); cbn [history] in I2, I3.
           split; [eapply loop_inv_mono; [|exact I1]; lia|].
           split; [exists (mkAttempt a d (validate d) :: ext); rewrite I2, <- app_assoc; reflexivity|].
           rewrite length_app in I3; cbn in I3; lia.
    + specialize (IH (S a) s (loop_inv_mono a (S a) s ltac:(lia) Hs)).
      destruct (mf_loop _ _ _ _ n (S a) s) as [r|s'].
      * eapply early_ok_mono; [| |exact IH]; [lia|exists []; rewrite app_nil_r; reflexivity].
      * destruct IH as (I1 & I2 & I3); split; [eapply loop_inv_mono; [|exact I1]; lia|].
        split; [exact I2|lia].
Qed.

Lemma email_loop_spec n a s :
  loop_inv validate is_valid a s ->
  match email_loop validate is_valid viols llm n a s with
  | Early r => early_ok validate is_valid (a + n) (history s) r
  | Exhausted s' => loop_inv validate is_valid (a + n) s' /\
                    (exists ext, history s' = history s ++ ext) /\
                    (List.length (history s') <= List.length (history s) + n)%nat
  end.
Proof.
  revert a s; induction n as [|n IH]; intros a s Hs; cbn [email_loop].
  - rewrite Nat.add_0_r; split; [exact Hs|split; [exists []; rewrite app_nil_r; reflexivity|lia]].
  - destruct (llm a _) as [d|e].
    + cbv zeta; destruct (is_valid (validate d)) eqn:Hd.
      * eapply early_ok_mono; [|exists []; rewrite app_nil_r; reflexivity|].
        2: apply early_ok_step; assumption. lia.
      * assert (Hs' := loop_inv_step a s d Hs Hd).
        match goal with |- match (if ?c then _ else _) with _ => _ end => destruct c end.
        -- split; [eapply loop_inv_mono; [|exact Hs']; lia|].
           split; [exists [mkAttempt a d (validate d)]; reflexivity|].
           cbn [history]; rewrite length_app; cbn; lia.
        -- specialize (IH (S a) _ Hs').
           destruct (email_loop _ _ _ _ n (S a) _) as [r|s'].
           ++ eapply early_ok_mono; [| |exact IH]; [lia|exists [mkAttempt a d (validate d)]; reflexivity].
           ++ destruct IH as (I1 & (ext & I2) & I3); cbn [history] in I2, I3.
              split; [eapply loop_inv_mono; [|exact I1]; lia|].
              split; [exists (mkAttempt a d (validate d) :: ext); rewrite I2, <- app_assoc; reflexivity|].
              rewrite length_app in I3; cbn in I3; lia.
    + specialize (IH (S a) s (loop_inv_mono a (S a) s ltac:(lia) Hs)).
      destruct (email_loop _ _ _ _ n (S a) s) as [r|s'].
      * eapply early_ok_mono; [| |exact IH]; [lia|exists []; rewrite app_nil_r; reflexivity].
      * destruct IH as (I1 & I2 & I3); split; [eapply loop_inv_mono; [|exact I1]; lia|].
        split; [exact I2|lia].
Qed.

Lemma fold_best {A} (f : A -> nat) (l pre : list A) (b : A) (i : nat) :
  nth_error pre i = Some b ->
  (forall j y, nth_error pre j = Some y -> f b <= f y)%nat ->
  (forall j y, (j < i)%nat -> nth_error pre j = Some y -> f b < f y)%nat ->
  let b' := fold_left (fun best cur => if Nat.ltb (f cur) (f best) then cur else best) l b in
  exists i', nth_error (pre ++ l) i' = Some b' /\
    (forall j y, nth_error (pre ++ l) j = Some y -> f b' <= f y)%nat /\
    (forall j y, (j < i')%nat -> nth_error (pre ++ l) j = Some y -> f b' < f y)%nat.
Proof.
  revert pre b i; induction l as [|y l IH]; intros pre b i Hb Hle Hlt; cbv zeta.
  - exists i; rewrite app_nil_r; auto.
  - cbn [fold_left]. replace (pre ++ y :: l) with ((pre ++ [y]) ++ l) by (rewrite <- app_assoc; reflexivity).
    assert (Hi : (i < List.length pre)%nat) by (apply nth_error_Some; congruence).
    assert (Hy : forall j z, nth_error (pre ++ [y]) j = Some z ->
                   nth_error pre j = Some z \/ (j = List.length pre /\ z = y)).
    { intros j z Hj; destruct (Nat.lt_ge_cases j (List.length pre)) as [Hl|Hl].
      - left; rewrite nth_error_app1 in Hj by exact Hl; exact Hj.
      - right; rewrite nth_error_app2 in Hj by exact Hl.
        destruct (j - List.length pre)%nat as [|k] eqn:E; cbn in Hj; [|destruct k; discriminate].
        injection Hj as <-; split; [lia|reflexivity]. }
    destruct (Nat.ltb (f y) (f b)) eqn:E.
    + apply Nat.ltb_lt in E.
      apply (IH (pre ++ [y]) y (List.length pre)).
      * rewrite nth_error_app2, Nat.sub_diag by lia; reflexivity.
      * intros j z Hj; destruct (Hy j z Hj) as [H|[_ ->]]; [apply Hle in H|]; lia.
      * intros j z Hj Hz; destruct (Hy j z Hz) as [H|[-> _]]; [apply Hle in H; lia|lia].
    + apply Nat.ltb_ge in E.
      apply (IH (pre ++ [y]) b i).
      * rewrite nth_error_app1 by exact Hi; exact Hb.
      * intros j z Hj; destruct (Hy j z Hj) as [H|[_ ->]]; [apply (Hle j z H)|exact E].
      * intros j z Hj Hz; destruct (Hy j z Hz) as [H|[-> _]]; [apply (Hlt j z Hj H)|lia].
Qed.

(** generateMultiformat: every returned result has a well-formed attempt
    history (attempt 1 first, increasing attempt numbers, at most
    [MAX_REPAIR_ATTEMPTS] of them, each with the validator's result on its
    draft); [success] is the validity of the returned content, and a
    failed result carries the content's own violations. *)
Theorem run_multiformat_returned (enableRepairLoop : bool) (r : result) :
  run_multiformat validate is_valid viols llm enableRepairLoop = Returned r ->
  history_ok validate (if enableRepairLoop then DEFAULT_MAX_REPAIR_ATTEMPTS else 1%nat)
    (attemptHistory r) /\
  success r = is_valid (validate (content r)) /\
  (success r = false -> r_violations r = viols (validate (content r))).
Proof.
  unfold run_multiformat; destruct (llm 1 Initial) as [d|e]; [|discriminate]; cbv zeta.
  destruct (is_valid (validate d) || negb enableRepairLoop) eqn:E.
  - intros H; injection H as <-; cbn.
    split; [|split; [reflexivity|auto]].
    split; [exists d, []; reflexivity|]. split; [repeat constructor|].
    repeat constructor; destruct enableRepairLoop; cbv; auto.
  - apply orb_false_iff in E as [Hd Hen]; destruct enableRepairLoop; [|discriminate].
    change (if true then DEFAULT_MAX_REPAIR_ATTEMPTS else 1%nat) with 3%nat.
    change (3 - 1)%nat with 2%nat.
    pose proof (mf_loop_spec 2 2 _ (loop_inv_init d Hd)) as Hl.
    destruct (mf_loop _ _ _ _ _ _ _) as [r'|s'].
    + intros H; injection H as <-.
      destruct Hl as (H1 & H2 & H3 & H4 & (ext & H5) & H6 & H7).
      split; [|split; [rewrite H1, H3; reflexivity|congruence]].
      split; [exists d, ext; exact H5|]. split; [exact H6|].
      eapply Forall_impl; [|exact H7]; intros x (? & Hi); split; auto;
        unfold DEFAULT_MAX_REPAIR_ATTEMPTS; cbn in Hi |- *; lia.
    + intros H; injection H as <-; cbn.
      destruct Hl as ((H1 & H2 & H3 & H4) & (ext & H5) & _).
      split; [|split; [rewrite <- H1, H2; reflexivity|intros _; rewrite H1; reflexivity]].
      split; [exists d, ext; exact H5|]. split; [exact H4|].
      eapply Forall_impl; [|exact H3]; intros x (? & ? & Hi); split; auto;
        unfold DEFAULT_MAX_REPAIR_ATTEMPTS; cbn in Hi |- *; lia.
Qed.

Lemma run_email_max_cases (MAX : nat) (r : result) :
  run_email_max validate is_valid viols llm MAX = Returned r ->
  (exists d, llm 1 Initial = Draft d /\ is_valid (validate d) = true /\
     r = mkResult true d [] 1 [mkAttempt 1 d (validate d)]) \/
  (exists d, llm 1 Initial = Draft d /\ is_valid (validate d) = false /\
     early_ok validate is_valid (2 + (MAX - 1)) [mkAttempt 1 d (validate d)] r) \/
  (exists d s', llm 1 Initial = Draft d /\ is_valid (validate d) = false /\
     loop_inv validate is_valid (2 + (MAX - 1)) s' /\
     (exists ext, history s' = mkAttempt 1 d (validate d) :: ext /\
        (List.length ext <= MAX - 1)%nat /\
        r = let best := best_attempt viols (mkAttempt 1 d (validate d)) ext in
            mkResult false (draft best) (viols (validation best)) (List.length (history s'))
              (history s'))).
Proof.
  unfold run_email_max; destruct (llm 1 Initial) as [d|e]; [|discriminate]; cbv zeta.
  destruct (is_valid (validate d)) eqn:Hd.
  - intros H; injection H as <-; left; exists d; auto.
  - pose proof (email_loop_spec (MAX - 1) 2 _ (loop_inv_init d Hd)) as Hl; cbv zeta.
    destruct (email_loop _ _ _ _ _ _ _) as [r'|s'].
    + intros H; injection H as <-; right; left; exists d; auto.
    + destruct Hl as (H1 & (ext & H2) & H3); cbn [history] in H2, H3.
      rewrite H2; intros H; injection H as <-. right; right.
      exists d, s'; split; [reflexivity|]. split; [exact Hd|]. split; [exact H1|].
      exists ext; split; [exact H2|]. split; [cbn in H3; rewrite H2 in H3; cbn in H3; lia|].
      rewrite H2; reflexivity.
Qed.

Lemma best_attempt_in (b : attempt) (l : list attempt) : In (best_attempt viols b l) (b :: l).
Proof.
  unfold best_attempt; revert b; induction l as [|y l IH]; intros b; [left; reflexivity|].
  cbn [fold_left]; destruct (Nat.ltb _ _).
  - right; apply IH.
  - destruct (IH b) as [Heq|Hin]; [left; exact Heq|right; right; exact Hin].
Qed.

(** generateEmail: a returned result reports [success] exactly when its
    content validates, carries no violations on success and the content's
    own violations on failure, and counts at most [MAX_REPAIR_ATTEMPTS]
    attempts. *)
Theorem run_email_returned (enableRepairLoop : bool) (r : result) :
  let MAX := if enableRepairLoop then DEFAULT_MAX_REPAIR_ATTEMPTS else 1%nat in
  run_email validate is_valid viols llm enableRepairLoop = Returned r ->
  success r = is_valid (validate (content r)) /\
  (success r = true -> r_violations r = []) /\
  (success r = false -> r_violations r = viols (validate (content r))) /\
  (attempts r <= MAX)%nat.
Proof.
  intros MAX H; unfold run_email in H; fold MAX in H.
  assert (HM : (1 <= MAX)%nat) by (unfold MAX, DEFAULT_MAX_REPAIR_ATTEMPTS; destruct enableRepairLoop; lia).
  clearbody MAX.
  destruct (run_email_max_cases _ _ H) as [(d & _ & Hd & ->)|[(d & _ & Hd & Hr)|(d & s' & _ & Hd & Hl & ext & Hh & Hlen & ->)]].
  - cbn; split; [auto|split; [auto|split; [discriminate|exact HM]]].
  - destruct Hr as (H1 & H2 & H3 & H4 & _).
    split; [rewrite H1, H3; reflexivity|]. split; [auto|]. split; [congruence|].
    lia.
  - destruct Hl as (H1 & H2 & H3 & H4); rewrite Hh in H3.
    cbv zeta; cbn [success content r_violations attempts attemptHistory].
    set (a1 := mkAttempt 1 d (validate d)) in *.
    assert (Hb : In (best_attempt viols a1 ext) (a1 :: ext)) by apply best_attempt_in.
    rewrite Forall_forall in H3; destruct (H3 _ Hb) as (Hv & Hf & _).
    split; [symmetry; rewrite <- Hv; exact Hf|]. split; [discriminate|].
    split; [intros _; rewrite Hv; reflexivity|].
    rewrite Hh; cbn; lia.
Qed.

(** generateEmail: a failed result returns the best attempt of its
    history: the content and violations of an attempt with the fewest
    errors, and the first such attempt ([reduce] keeps the earlier one
    on a tie). *)
Theorem run_email_best (enableRepairLoop : bool) (r : result) :
  run_email validate is_valid viols llm enableRepairLoop = Returned r ->
  success r = false ->
  exists i x, nth_error (attemptHistory r) i = Some x /\
    content r = draft x /\ r_violations r = viols (validation x) /\
    (forall j y, nth_error (attemptHistory r) j = Some y ->
       attempt_errors viols x <= attempt_errors viols y)%nat /\
    (forall j y, (j < i)%nat -> nth_error (attemptHistory r) j = Some y ->
       attempt_errors viols x < attempt_errors viols y)%nat.
Proof.
  unfold run_email; intros H Hs.
  destruct (run_email_max_cases _ _ H) as [(d & _ & Hd & ->)|[(d & _ & Hd & Hr)|(d & s' & _ & Hd & Hl & ext & Hh & Hlen & ->)]].
  - discriminate.
  - destruct Hr as (H1 & _); congruence.
  - cbv zeta; cbn [content r_violations attemptHistory]; rewrite Hh.
    destruct (fold_best (attempt_errors viols) ext [mkAttempt 1 d (validate d)] (mkAttempt 1 d (validate d)) 0)
      as (i & Hi & Hle & Hlt).
    + reflexivity.
    + intros [|[|j]] y Hj; cbn in Hj; try discriminate; injection Hj as <-; lia.
    + intros j y Hj; lia.
    + exists i, (best_attempt viols (mkAttempt 1 d (validate d)) ext).
      split; [exact Hi|]. split; [reflexivity|]. split; [reflexivity|]. split; [exact Hle|exact Hlt].
Qed.

(** With the repair loop disabled, each orchestrator calls the generator
    exactly once: a failed call throws, and a draft is returned as the
    result of attempt 1 with the validator's verdict on it. *)
Theorem run_disabled :
  run_multiformat validate is_valid viols llm false =
    match llm 1 Initial with
    | Failure e => Thrown (js "Ошибка генерации: " ++ e)
    | Draft d => Returned (mkResult (is_valid (validate d)) d (viols (validate d)) 1
                             [mkAttempt 1 d (validate d)])
    end /\
  run_email validate is_valid viols llm false =
    match llm 1 Initial with
    | Failure e => Thrown (js "Initial generation failed: " ++ e)
    | Draft d => Returned (mkResult (is_valid (validate d)) d
                             (if is_valid (validate d) then [] else viols (validate d)) 1
                             [mkAttempt 1 d (validate d)])
    end.
Proof.
  split.
  - unfold run_multiformat; destruct (llm 1 Initial) as [d|e]; [|reflexivity]; cbv zeta.
    rewrite orb_true_r; reflexivity.
  - unfold run_email, run_email_max; destruct (llm 1 Initial) as [d|e]; [|reflexivity]; cbv zeta.
    destruct (is_valid (validate d)); reflexivity.
Qed.

End Loops.

Lemma jstr_ltb_irrefl (a : jstr) : jstr_ltb a a = false.
Proof.
  induction a as [|x a IH]; [reflexivity|]; cbn [jstr_ltb].
  rewrite Z.ltb_irrefl, Z.eqb_refl, IH; reflexivity.
Qed.

Lemma jstr_ltb_trans (a b c : jstr) : jstr_ltb a b = true -> jstr_ltb b c = true -> jstr_ltb a c = true.
Proof.
  revert b c; induction a as [|x a IH]; intros [|y b] [|z c]; cbn [jstr_ltb]; try discriminate; auto.
  rewrite !orb_true_iff, !andb_true_iff, !Z.ltb_lt, !Z.eqb_eq.
  intros [H1|[H1 H2]] [H3|[H3 H4]]; subst;
    first [left; lia | right; split; [reflexivity|eapply IH; eassumption]].
Qed.

Lemma jstr_ltb_total (a b : jstr) : jstr_ltb a b = false -> jstr_ltb b a = false -> a = b.
Proof.
  revert b; induction a as [|x a IH]; intros [|y b]; cbn [jstr_ltb]; try discriminate; auto.
  rewrite !orb_false_iff, !Z.ltb_ge; intros [H1 H2] [H3 H4].
  assert (x = y) by lia; subst y; rewrite Z.eqb_refl in H2, H4; cbn in H2, H4.
  f_equal; apply IH; assumption.
Qed.

Lemma insert_sorted_comm (x y : jstr) (l : list jstr) :
  insert_sorted x (insert_sorted y l) = insert_sorted y (insert_sorted x l).
Proof.
  induction l as [|z l IH]; cbn [insert_sorted].
  - destruct (jstr_ltb x y) eqn:Exy, (jstr_ltb y x) eqn:Eyx.
    + pose proof (jstr_ltb_trans _ _ _ Exy Eyx); rewrite jstr_ltb_irrefl in *; discriminate.
    + reflexivity.
    + reflexivity.
    + rewrite (jstr_ltb_total _ _ Exy Eyx); reflexivity.
  - destruct (jstr_ltb y z) eqn:Eyz, (jstr_ltb x z) eqn:Exz; cbn [insert_sorted];
      rewrite ?Eyz, ?Exz.
    + destruct (jstr_ltb x y) eqn:Exy, (jstr_ltb y x) eqn:Eyx.
      * pose proof (jstr_ltb_trans _ _ _ Exy Eyx); rewrite jstr_ltb_irrefl in *; discriminate.
      * reflexivity.
      * reflexivity.
      * rewrite (jstr_ltb_total _ _ Exy Eyx); reflexivity.
    + destruct (jstr_ltb x y) eqn:Exy; [|reflexivity].
      rewrite (jstr_ltb_trans _ _ _ Exy Eyz) in Exz; discriminate.
    + destruct (jstr_ltb y x) eqn:Eyx; [|reflexivity].
      rewrite (jstr_ltb_trans _ _ _ Eyx Exz) in Eyz; discriminate.
    + rewrite IH; reflexivity.
Qed.

(** generateViolationSignature depends only on which violations occur
    (with their multiplicity), not on their order: the code/location keys
    are sorted before they are joined. *)
Theorem generateViolationSignature_perm (vs vs' : list violation) :
  Permutation vs vs' -> generateViolationSignature vs = generateViolationSignature vs'.
Proof.
  intros Hp; unfold generateViolationSignature; f_equal.
  apply (Permutation_map (fun v => code v ++ js ":" ++ location v)) in Hp.
  induction Hp as [|x l l' _ IH|x y l|l l' l'' _ IH1 _ IH2]; cbn [fold_right].
  - reflexivity.
  - rewrite IH; reflexivity.
  - apply insert_sorted_comm.
  - congruence.
Qed.

Lemma run_multiformat_returned_witness :
  exists r, generateMultiformat Scenarios.llm_errors_312 true = Returned r /\
    success r = false /\ attempts r = 3%nat /\
    r_violations r = Multiformat.mf_violations (Multiformat.validateMultiformat (content r)).
Proof.
  set (r0 := match generateMultiformat Scenarios.llm_errors_312 true with
             | Returned r => r | Thrown _ => mkResult false [] [] 0 [] end).
  assert (E : generateMultiformat Scenarios.llm_errors_312 true = Returned r0)
    by (vm_compute; reflexivity).
  exists r0; split; [exact E|].
  destruct (run_multiformat_returned Multiformat.validateMultiformat Multiformat.isValid
              Multiformat.mf_violations Scenarios.llm_errors_312 true r0 E) as (_ & _ & H3).
  split; [vm_compute; reflexivity|]. split; [vm_compute; reflexivity|].
  apply H3; vm_compute; reflexivity.
Defined.

Lemma run_email_returned_witness :
  exists r, generateEmail Email.default_counts Scenarios.llm_always_empty true = Returned r /\
    success r = false /\ (attempts r <= 3)%nat /\
    r_violations r = Email.e_violations (Email.validateEmail (content r) (Some Email.default_counts)).
Proof.
  set (r0 := match generateEmail Email.default_counts Scenarios.llm_always_empty true with
             | Returned r => r | Thrown _ => mkResult false [] [] 0 [] end).
  assert (E : generateEmail Email.default_counts Scenarios.llm_always_empty true = Returned r0)
    by (vm_compute; reflexivity).
  exists r0; split; [exact E|].
  destruct (run_email_returned (fun d => Email.validateEmail d (Some Email.default_counts))
              Email.valid Email.e_violations Scenarios.llm_always_empty true r0 E)
    as (_ & _ & H3 & H4).
  split; [vm_compute; reflexivity|]. split; [exact H4|].
  apply H3; vm_compute; reflexivity.
Defined.

Lemma run_email_best_witness :
  exists r i x, generateEmail Email.default_counts Scenarios.llm_always_empty true = Returned r /\
    success r = false /\ nth_error (attemptHistory r) i = Some x /\ content r = draft x.
Proof.
  set (r0 := match generateEmail Email.default_counts Scenarios.llm_always_empty true with
             | Returned r => r | Thrown _ => mkResult false [] [] 0 [] end).
  assert (E : generateEmail Email.default_counts Scenarios.llm_always_empty true = Returned r0)
    by (vm_compute; reflexivity).
  assert (Hs : success r0 = false) by (vm_compute; reflexivity).
  destruct (run_email_best (fun d => Email.validateEmail d (Some Email.default_counts))
              Email.valid Email.e_violations Scenarios.llm_always_empty true r0 E Hs)
    as (i & x & Hi & Hc & _).
  exists r0, i, x; repeat split; assumption.
Defined.

Lemma generateViolationSignature_perm_witness :
  generateViolationSignature
    [mkViolation (js "B") ERROR [] (js "subject") [] None;
     mkViolation (js "A") WARNING [] (js "body") [] None]
  = generateViolationSignature
    [mkViolation (js "A") WARNING [] (js "body") [] None;
     mkViolation (js "B") ERROR [] (js "subject") [] None].
Proof.
  apply generateViolationSignature_perm, perm_swap.
Defined.

End OrchestratorExtras.

Module EmailParseExtras.
Import Email.

Lemma update_nth_Forall {A} (Q : A -> Prop) (f : A -> A) (n : nat) (l : list A) :
  Forall Q l -> (forall x, Q x -> Q (f x)) -> Forall Q (update_nth n f l).
Proof.
  intros Hl Hf; revert n; induction Hl as [|x l Hx Hl IH]; intros [|n]; cbn; constructor; auto.
Qed.

Lemma pushVariants_inv (st : structure) (sec : option section) (vs : list jstr) (cb : option nat) :
  productHeading st = [] ->
  Forall (fun b => b_text b = [] /\ b_cta b = []) (blocks st) ->
  sec <> Some SecBlockCTA ->
  productHeading (pushVariants st sec vs cb) = [] /\
  Forall (fun b => b_text b = [] /\ b_cta b = []) (blocks (pushVariants st sec vs cb)).
Proof.
  intros Hp Hb Hs; destruct sec as [[]|]; cbn; auto;
    try (destruct cb; cbn; auto; split; [exact Hp|]);
    try (apply update_nth_Forall; [exact Hb|intros x Hx; exact Hx]).
  congruence.
Qed.

Lemma flush_inv (ps : pstate) (cb : option nat) :
  parse_inv ps ->
  productHeading (flush ps cb) = [] /\
  Forall (fun b => b_text b = [] /\ b_cta b = []) (blocks (flush ps cb)).
Proof.
  intros (Hp & Hb & Hs); unfold flush; destruct (p_buf ps); [auto|].
  apply pushVariants_inv; assumption.
Qed.

Lemma parse_line_inv (ps : pstate) (raw : jstr) : parse_inv ps -> parse_inv (parse_line ps raw).
Proof.
  intros H; unfold parse_line; cbv zeta.
  destruct (trim raw) as [|c line]; [exact H|].
  destruct (find_header _) as [h|] eqn:Eh.
  - destruct h;
      try (destruct (flush_inv ps None H) as [Hp Hb];
           split; [exact Hp|split; [exact Hb|cbn; discriminate]]).
    destruct (flush_inv ps (p_block ps) H) as [Hp Hb].
    split; [exact Hp|]. split; [cbn; apply Forall_app; split; [exact Hb|repeat constructor]|].
    cbn; discriminate.
  - destruct (test false variant_marker _); [|exact H].
    destruct H as (Hp & Hb & Hs); split; [exact Hp|split; [exact Hb|exact Hs]].
Qed.

(** parseEmailOutput returns [null] only for the empty output; otherwise
    the structure it returns has an empty [productHeading], and every
    block in it has an empty [text] and [cta]: no header sets these
    sections, so the parser never fills them. *)
Theorem parseEmailOutput_unfilled (output : jstr) :
  match parseEmailOutput output with
  | None => output = []
  | Some st => productHeading st = [] /\
               Forall (fun b => b_text b = [] /\ b_cta b = []) (blocks st)
  end.
Proof.
  unfold parseEmailOutput; destruct output as [|c rest]; [reflexivity|].
  assert (H : parse_inv (fold_left parse_line (split_lines (c :: rest)) (mkP empty_structure None None []))).
  { assert (H0 : forall ps, parse_inv ps -> parse_inv (fold_left parse_line (split_lines (c :: rest)) ps)).
    { induction (split_lines (c :: rest)) as [|l ls IH]; intros ps Hps; [exact Hps|].
      cbn [fold_left]; apply IH, parse_line_inv, Hps. }
    apply H0; split; [reflexivity|split; [constructor|discriminate]]. }
  destruct (fold_left _ _ _) as [st sec cb buf]; destruct H as (Hp & Hb & Hs); cbn in *.
  destruct buf; [auto|]. apply pushVariants_inv; assumption.
Qed.

(** parseEmailOutput drops every line read before the first section
    header: for a non-empty output none of whose lines is a header, it
    returns the empty structure, numbered variants included. *)
Theorem parseEmailOutput_headerless (output : jstr) :
  output <> [] ->
  Forall (fun raw => find_header (replace_first false number_prefix [] (trim raw)) = None)
    (split_lines output) ->
  parseEmailOutput output = Some empty_structure.
Proof.
  exact (EmailFacts.parseEmailOutput_no_header output).
Qed.

Lemma parseEmailOutput_headerless_witness :
  parseEmailOutput (join_lines [js "Вот варианты:"; js "1. Раз два три"; js "- Четыре"])
  = Some empty_structure.
Proof.
  apply parseEmailOutput_headerless; [discriminate|].
  repeat constructor; vm_compute; reflexivity.
Defined.

End EmailParseExtras.
